(** * The server-sent-events relay of [prep/4_prep.py]

    The endpoint [/ai] returns [EventSourceResponse(event_stream())], where
    [event_stream] is an asynchronous generator: it opens an [httpx] client,
    posts a fixed request to a local generation service, and turns the
    newline-delimited JSON of the response body into a sequence of events.

    The generator is embedded as a function in a small monad that records
    what the generator does (requests, yields, sleeps, prints, releases) and
    threads the two things that can interrupt it: exceptions, and the
    cancellation that the server delivers at an [await] or [yield] when the
    browser goes away.

    Conventions.
    - A Python [str] is a [string] holding the UTF-8 encoding of the text.
    - A Python [dict] with string keys is a [gmap string _].
    - Durations are in milliseconds ([asyncio.sleep(0.3)] is [300]).
    - The response body is a finite list of lines, as [aiter_lines] yields
      them, followed by either the end of the body or a transport error. *)

From Stdlib Require Import ZArith NArith String Ascii List Lia Bool.
From Stdlib Require Import Floats.SpecFloat.
From stdpp Require Import base option list strings gmap pretty.

Set Warnings "-register-all".
#[local] Open Scope Z_scope.

(* ------------------------------------------------------------------ *)
(** ** Exceptions and results *)

(** The exceptions that can travel through [event_stream].
    [CancelledError] stands for whatever the event loop throws into the
    generator at its current suspension point when the consumer is gone
    ([asyncio.CancelledError], or [GeneratorExit] on [aclose]); neither is
    a [json.JSONDecodeError]. [TransportError e] is an [httpx] failure
    ([ConnectError], [ReadError], ...), named by [e]. [ValueError] is a
    [ValueError] that is not of its subclass [json.JSONDecodeError]. *)
Inductive exn :=
| JSONDecodeError
| AttributeError
| RecursionError
| ValueError
| TransportError (name : string)
| CancelledError.

Inductive result (A : Type) :=
| Ok (a : A)
| Raise (e : exn).
Arguments Ok {A} a.
Arguments Raise {A} e.

Definition is_JSONDecodeError (e : exn) : bool :=
  match e with JSONDecodeError => true | _ => false end.

(* ------------------------------------------------------------------ *)
(** ** Python values produced by [json.loads] *)

(** [json.loads] yields [None], [bool], [int], [float], [str], [list] and
    [dict]. A [float] is an IEEE binary64 value, kept as a [spec_float]. *)
Inductive json :=
| JNull
| JBool (b : bool)
| JInt (z : Z)
| JFloat (f : spec_float)
| JStr (s : string)
| JArr (l : list json)
| JObj (m : gmap string json).

(** Truth value of a Python object, as tested by [if data.get("done"):]. *)
Definition truthy (v : json) : bool :=
  match v with
  | JNull => false
  | JBool b => b
  | JInt z => negb (z =? 0)
  | JFloat f => match f with S754_zero _ => false | _ => true end
  | JStr s => negb (String.eqb s "")
  | JArr l => match l with [] => false | _ => true end
  | JObj m => negb (bool_decide (m = ∅))
  end.

(** [v.get(key, dflt)]: only a [dict] has a [get] attribute; on every other
    value produced by [json.loads] the attribute lookup raises
    [AttributeError]. *)
Definition py_get (v : json) (key : string) (dflt : json) : result json :=
  match v with
  | JObj m => Ok (default dflt (m !! key))
  | _ => Raise AttributeError
  end.

(* ------------------------------------------------------------------ *)
(** ** [str.strip] *)

Module Str.

Definition code (c : ascii) : N := N_of_ascii c.

(** One-byte whitespace: U+0009..U+000D, U+001C..U+001F, U+0020. *)
Definition space1 (a : ascii) : bool :=
  let n := code a in
  ((9 <=? n) && (n <=? 13) || (28 <=? n) && (n <=? 32))%N.

(** Two-byte whitespace: U+0085 (C2 85) and U+00A0 (C2 A0). *)
Definition space2 (a b : ascii) : bool :=
  ((code a =? 194) && ((code b =? 133) || (code b =? 160)))%N.

(** Three-byte whitespace: U+1680 (E1 9A 80), U+2000..U+200A
    (E2 80 80..8A), U+2028, U+2029 (E2 80 A8, A9), U+202F (E2 80 AF),
    U+205F (E2 81 9F), U+3000 (E3 80 80). *)
Definition space3 (a b c : ascii) : bool :=
  let '(x, y, z) := (code a, code b, code c) in
  ((x =? 225) && (y =? 154) && (z =? 128)
   || (x =? 226) && (y =? 128)
      && ((128 <=? z) && (z <=? 138) || (z =? 168) || (z =? 169) || (z =? 175))
   || (x =? 226) && (y =? 129) && (z =? 159)
   || (x =? 227) && (y =? 128) && (z =? 128))%N.

(** [s.lstrip()]: drop the characters [c] with [c.isspace()] from the
    front. *)
Fixpoint lstrip (s : string) : string :=
  match s with
  | String a r1 =>
      if space1 a then lstrip r1
      else match r1 with
           | String b r2 =>
               if space2 a b then lstrip r2
               else match r2 with
                    | String c r3 => if space3 a b c then lstrip r3 else s
                    | EmptyString => s
                    end
           | EmptyString => s
           end
  | EmptyString => s
  end.

(** The same from the back, on the reversed byte sequence. *)
Fixpoint lstrip_rev (s : string) : string :=
  match s with
  | String a r1 =>
      if space1 a then lstrip_rev r1
      else match r1 with
           | String b r2 =>
               if space2 b a then lstrip_rev r2
               else match r2 with
                    | String c r3 => if space3 c b a then lstrip_rev r3 else s
                    | EmptyString => s
                    end
           | EmptyString => s
           end
  | EmptyString => s
  end.

Definition rstrip (s : string) : string :=
  String.rev (lstrip_rev (String.rev s)).

(** [s.strip()]. *)
Definition strip (s : string) : string := rstrip (lstrip s).

(** [bool(s)] for a [str]: the empty string is the only false one. *)
(** [s * n]. *)
Fixpoint times (s : string) (n : nat) : string :=
  match n with
  | O => EmptyString
  | S k => s +:+ times s k
  end.

Definition to_bool (s : string) : bool :=
  match s with EmptyString => false | String _ _ => true end.

End Str.

(* ------------------------------------------------------------------ *)
(** ** [json.loads]

    A reference decoder for the JSON text grammar as CPython's [json]
    module accepts it on a [str]: RFC 8259 plus the literals [NaN],
    [Infinity] and [-Infinity]; a number with a fraction or an exponent is a
    [float], any other number an [int]; a repeated object key keeps its
    last value. A text that is not of the grammar is rejected with a
    [json.JSONDecodeError].

    Two limits of the interpreter (CPython 3.11) cut the grammar short, and
    neither exception is a [json.JSONDecodeError]. The scanner enters one
    level of the interpreter's recursion for each array or object it
    opens, and raises [RecursionError] when none is left. An [int] literal
    of more digits than [sys.get_int_max_str_digits()] raises [ValueError]
    when it is converted, which is as soon as it has been read; a limit of
    [0] is no limit, and a [float] literal has none. The scan goes from
    left to right and stops at the first of these.

    The relay below is parametric in the decoder; [loads] is the decoder
    at which concrete sessions are evaluated. *)

Module Json.

Definition code (c : ascii) : Z := Z.of_N (N_of_ascii c).
Definition chr (n : Z) : ascii := ascii_of_N (Z.to_N n).

Definition is_ws (c : ascii) : bool :=
  let n := code c in (n =? 32) || (n =? 9) || (n =? 10) || (n =? 13).

Fixpoint skip_ws (s : string) : string :=
  match s with
  | String c r => if is_ws c then skip_ws r else s
  | EmptyString => s
  end.

Fixpoint strip_prefix (p s : string) : option string :=
  match p, s with
  | EmptyString, _ => Some s
  | String a p', String b s' => if Ascii.eqb a b then strip_prefix p' s' else None
  | String _ _, EmptyString => None
  end.

Definition digit (c : ascii) : option Z :=
  let n := code c in
  if (48 <=? n) && (n <=? 57) then Some (n - 48) else None.

Definition hexdigit (c : ascii) : option Z :=
  let n := code c in
  if (48 <=? n) && (n <=? 57) then Some (n - 48)
  else if (97 <=? n) && (n <=? 102) then Some (n - 87)
  else if (65 <=? n) && (n <=? 70) then Some (n - 55)
  else None.

(** Longest run of decimal digits at the front of [s]: the number they
    denote after the digits already in [acc], how many there were, and
    what follows. *)
Fixpoint digits (acc cnt : Z) (s : string) : Z * Z * string :=
  match s with
  | String c r =>
      match digit c with
      | Some d => digits (10 * acc + d) (cnt + 1) r
      | None => (acc, cnt, s)
      end
  | EmptyString => (acc, cnt, s)
  end.

(** [float("<m>e<e>")] for a decimal mantissa [m >= 0]: the binary64
    nearest to [m * 10^e], ties to even. A negative exponent divides with
    enough extra bits and a sticky bit for the last rounding to be exact. *)
Definition float_of_decimal (neg : bool) (m e : Z) : spec_float :=
  let sgn x := if neg then - x else x in
  if m =? 0 then S754_zero neg
  else if 0 <=? e then binary_normalize 53 1024 (sgn (m * 10 ^ e)) 0 neg
  else
    let d := 10 ^ (- e) in
    let s := Z.log2 d + 64 in
    let n := m * 2 ^ s in
    let q := n / d in
    let q' := if n mod d =? 0 then q else Z.lor q 1 in
    binary_normalize 53 1024 (sgn q') (- s) neg.

(** An optional minus sign; the digit 0, or a non-zero digit and any
    digits; then, each only when complete, a fraction (a dot and digits)
    and an exponent (e or E, an optional sign, digits). An [int] literal
    is refused when [max_digits] is positive and the literal has more
    digits than that. *)
Definition number (max_digits : Z) (s : string) : result (json * string) :=
  let '(neg, s1) :=
    match s with String "-" r => (true, r) | _ => (false, s) end in
  match s1 with
  | String c r =>
      match digit c with
      | None => Raise JSONDecodeError
      | Some d =>
          let '(m, cnt, s2) := if d =? 0 then (0, 1, r) else digits d 1 r in
          let '(m, fl, s3) :=
            match s2 with
            | String "." (String c' _ as fr) =>
                match digit c' with
                | Some _ => digits m 0 fr
                | None => (m, 0, s2)
                end
            | _ => (m, 0, s2)
            end in
          let '(ex, has_exp, s4) :=
            match s3 with
            | String e r' =>
                if (code e =? 101) || (code e =? 69) then
                  let '(eneg, r1) :=
                    match r' with
                    | String "-" q => (true, q)
                    | String "+" q => (false, q)
                    | _ => (false, r')
                    end in
                  match r1 with
                  | String c'' _ =>
                      match digit c'' with
                      | Some _ =>
                          let '(x, _, s') := digits 0 0 r1 in
                          (if eneg then - x else x, true, s')
                      | None => (0, false, s3)
                      end
                  | EmptyString => (0, false, s3)
                  end
                else (0, false, s3)
            | EmptyString => (0, false, s3)
            end in
          if (0 <? fl) || has_exp
          then Ok (JFloat (float_of_decimal neg m (ex - fl)), s4)
          else if (0 <? max_digits) && (max_digits <? cnt)
          then Raise ValueError
          else Ok (JInt (if neg then - m else m), s4)
      end
  | EmptyString => Raise JSONDecodeError
  end.

(** What a string literal is made of: a character of the text, or the
    code unit of a [\uXXXX] escape. *)
Inductive item := Raw (c : ascii) | Esc (cp : Z).

(** The body of a string literal, after its opening quote, up to and
    including the closing quote. Control characters are rejected. *)
Fixpoint scan_string (s : string) : option (list item * string) :=
  match s with
  | EmptyString => None
  | String c r =>
      if code c =? 34 then Some ([], r)
      else if code c <? 32 then None
      else if code c =? 92 then
        match r with
        | String e r1 =>
            let simple (x : Z) :=
              match scan_string r1 with
              | Some (l, r') => Some (Raw (chr x) :: l, r')
              | None => None
              end in
            match e with
            | "034"%char => simple 34
            | "\"%char => simple 92
            | "/"%char => simple 47
            | "b"%char => simple 8
            | "f"%char => simple 12
            | "n"%char => simple 10
            | "r"%char => simple 13
            | "t"%char => simple 9
            | "u"%char =>
                match r1 with
                | String h1 (String h2 (String h3 (String h4 r2))) =>
                    match hexdigit h1, hexdigit h2, hexdigit h3, hexdigit h4 with
                    | Some a, Some b, Some c, Some d =>
                        match scan_string r2 with
                        | Some (l, r') =>
                            Some (Esc (((a * 16 + b) * 16 + c) * 16 + d) :: l, r')
                        | None => None
                        end
                    | _, _, _, _ => None
                    end
                | _ => None
                end
            | _ => None
            end
        | EmptyString => None
        end
      else
        match scan_string r with
        | Some (l, r') => Some (Raw c :: l, r')
        | None => None
        end
  end.

(** UTF-8 encoding of a code point. *)
Definition utf8 (cp : Z) : list ascii :=
  if cp <? 128 then [chr cp]
  else if cp <? 2048 then [chr (192 + cp / 64); chr (128 + cp mod 64)]
  else if cp <? 65536 then
    [chr (224 + cp / 4096); chr (128 + (cp / 64) mod 64); chr (128 + cp mod 64)]
  else
    [chr (240 + cp / 262144); chr (128 + (cp / 4096) mod 64);
     chr (128 + (cp / 64) mod 64); chr (128 + cp mod 64)].

(** A high surrogate escape directly followed by a low surrogate escape
    is one code point. *)
Fixpoint assemble (l : list item) : list ascii :=
  match l with
  | [] => []
  | Raw c :: r => c :: assemble r
  | Esc hi :: r =>
      match r with
      | Esc lo :: r' =>
          if (55296 <=? hi) && (hi <=? 56319) && (56320 <=? lo) && (lo <=? 57343)
          then utf8 (65536 + (hi - 55296) * 1024 + (lo - 56320)) ++ assemble r'
          else utf8 hi ++ assemble r
      | _ => utf8 hi ++ assemble r
      end
  end.

Definition string_lit (s : string) : option (string * string) :=
  match scan_string s with
  | Some (l, r) => Some (string_of_list_ascii (assemble l), r)
  | None => None
  end.

(** The two limits at their defaults, which the program does not change:
    [sys.getrecursionlimit()] and [sys.get_int_max_str_digits()]. *)
Definition recursion_limit : nat := 1000.
Definition int_max_str_digits : Z := 4300.

Section Scanner.

Variable max_digits : Z.

(** [value] reads one value at the front of [s]; [members] the members of
    an object from its first key on; [elements] the elements of an array
    from its first element on. [room] is the number of levels of recursion
    left: an array or an object takes one for what it holds, before
    anything of it is read. *)
Fixpoint value (fuel room : nat) (s : string) : result (json * string) :=
  match fuel with
  | O => Raise JSONDecodeError
  | S f =>
      match s with
      | String "034" r =>
          match string_lit r with
          | Some (x, r') => Ok (JStr x, r')
          | None => Raise JSONDecodeError
          end
      | String "{" r =>
          match room with
          | O => Raise RecursionError
          | S room' =>
              match skip_ws r with
              | String "}" r' => Ok (JObj ∅, r')
              | r1 => members f room' ∅ r1
              end
          end
      | String "[" r =>
          match room with
          | O => Raise RecursionError
          | S room' =>
              match skip_ws r with
              | String "]" r' => Ok (JArr [], r')
              | r1 => elements f room' [] r1
              end
          end
      | _ =>
          match strip_prefix "null" s with
          | Some r => Ok (JNull, r)
          | None =>
          match strip_prefix "true" s with
          | Some r => Ok (JBool true, r)
          | None =>
          match strip_prefix "false" s with
          | Some r => Ok (JBool false, r)
          | None =>
          match strip_prefix "NaN" s with
          | Some r => Ok (JFloat S754_nan, r)
          | None =>
          match strip_prefix "Infinity" s with
          | Some r => Ok (JFloat (S754_infinity false), r)
          | None =>
          match strip_prefix "-Infinity" s with
          | Some r => Ok (JFloat (S754_infinity true), r)
          | None => number max_digits s
          end end end end end end
      end
  end
with members (fuel room : nat) (acc : gmap string json) (s : string)
  : result (json * string) :=
  match fuel with
  | O => Raise JSONDecodeError
  | S f =>
      match s with
      | String "034" r =>
          match string_lit r with
          | Some (k, r1) =>
              match skip_ws r1 with
              | String ":" r2 =>
                  match value f room (skip_ws r2) with
                  | Ok (v, r3) =>
                      match skip_ws r3 with
                      | String "," r4 => members f room (<[k:=v]> acc) (skip_ws r4)
                      | String "}" r4 => Ok (JObj (<[k:=v]> acc), r4)
                      | _ => Raise JSONDecodeError
                      end
                  | Raise e => Raise e
                  end
              | _ => Raise JSONDecodeError
              end
          | None => Raise JSONDecodeError
          end
      | _ => Raise JSONDecodeError
      end
  end
with elements (fuel room : nat) (acc : list json) (s : string)
  : result (json * string) :=
  match fuel with
  | O => Raise JSONDecodeError
  | S f =>
      match value f room s with
      | Ok (v, r1) =>
          match skip_ws r1 with
          | String "," r2 => elements f room (v :: acc) (skip_ws r2)
          | String "]" r2 => Ok (JArr (rev (v :: acc)), r2)
          | _ => Raise JSONDecodeError
          end
      | Raise e => Raise e
      end
  end.

(** One value, surrounded by optional whitespace, and nothing else. Every
    call consumes a character before the next one at the same depth, so
    twice the length is fuel enough. *)
Definition decode (room : nat) (s : string) : result json :=
  match value (2 * String.length s + 2) room (skip_ws s) with
  | Ok (v, r) =>
      match skip_ws r with
      | EmptyString => Ok v
      | String _ _ => Raise JSONDecodeError
      end
  | Raise e => Raise e
  end.

End Scanner.

(** [json.loads(s)], called in a frame that runs with [used] levels of
    the recursion limit taken, its own among them. The calls of [loads],
    [decode], [raw_decode] and of the scanner take four more, and what is
    left is the room of the scanner. *)
Definition loads_at (used : nat) (s : string) : result json :=
  if (recursion_limit - used <? 4)%nat then Raise RecursionError
  else decode int_max_str_digits (recursion_limit - used - 4) s.

(** [json.loads(line)] in [event_stream], were the frame of the generator
    the only one: the most room the call in line 42 can have. What runs
    the generator (the event loop, the server, the response) takes levels
    of its own; they are not in the repository. *)
Definition loads : string -> result json := loads_at 1.

(** The value a text denotes by the grammar alone, with neither limit:
    a text is syntactically valid JSON when [grammar] accepts it. No text
    nests deeper than it is long. *)
Definition grammar (s : string) : result json := decode 0 (String.length s) s.

(** JSON texts are written below with an apostrophe for each double
    quote: [text "{'done':true}"] is the line [{"done":true}]. *)
Fixpoint text (s : string) : string :=
  match s with
  | EmptyString => EmptyString
  | String c r => String (if Ascii.eqb c "'" then "034"%char else c) (text r)
  end.

End Json.
(* ------------------------------------------------------------------ *)
(** ** Events, requests and the upstream *)

(** The three event names the generator uses. *)
Inductive kind := Message | Status | Close.

Definition kind_name (k : kind) : string :=
  match k with Message => "message" | Status => "status" | Close => "close" end.

(** A yielded [{"event": k, "data": d}]. The data of a relayed chunk is
    whatever [data.get("response", "")] returned, not necessarily a [str]. *)
Record event := Event { ev_kind : kind; ev_data : json }.

(** The arguments of [client.stream(method, url, json=...)]. *)
Record request := Request { req_method : string; req_url : string; req_json : json }.

(** The response as the generator observes it: the status code, the lines
    [aiter_lines] yields, and how the body ends ([None]: end of stream;
    [Some e]: the read after the last line raises [e]). *)
Record response :=
  Response { status_code : Z; body_lines : list string; body_failure : option exn }.

(** The upstream either fails the request with an exception or answers. *)
Inductive upstream :=
| Refused (e : exn)
| Accepted (resp : response).

(** What is printed on the console, by the [print] call that does it:
    - [LogStatus c]:      [print(f"Status Code: {resp.status_code}\n")]
    - [LogChunk v]:       [print(f"chunk: {repr(chunk)}")]
    - [LogDecodeError l]: [print(f"Could not decode line: {line}")] *)
Inductive log_record :=
| LogStatus (code : Z)
| LogChunk (chunk : json)
| LogDecodeError (line : string).

(** The observable steps of a session, in the order they happen. *)
Inductive action :=
| ClientOpen                 (* [httpx.AsyncClient()] entered *)
| ClientClose                (* ... and left *)
| Connect (r : request)      (* [client.stream(...)] entered: request sent *)
| ResponseClose              (* the response of [client.stream] released *)
| NextLine (line : string)   (* [aiter_lines] handed over a line *)
| Yield (e : event)          (* [yield e] *)
| Sleep (ms : Z)             (* [await asyncio.sleep(ms / 1000)] *)
| Prints (m : log_record).

(* ------------------------------------------------------------------ *)
(** ** The generator monad *)

(** How many suspension points ([await], [yield]) the consumer lets the
    generator get through before the generator is cancelled at the next
    one; [None] for a consumer that stays to the end. *)
Definition patience := option nat.

Record run (A : Type) :=
  Run { trace : list action; rest : patience; outcome : result A }.
Arguments Run {A} trace rest outcome.
Arguments trace {A} r.
Arguments rest {A} r.
Arguments outcome {A} r.

Definition gen (A : Type) : Type := patience -> run A.

Definition ret {A} (a : A) : gen A := fun p => Run [] p (Ok a).

Definition raise {A} (e : exn) : gen A := fun p => Run [] p (Raise e).

Definition bind {A B} (m : gen A) (f : A -> gen B) : gen B :=
  fun p =>
    let r := m p in
    match outcome r with
    | Ok a => let r' := f a (rest r) in Run (trace r ++ trace r') (rest r') (outcome r')
    | Raise e => Run (trace r) (rest r) (Raise e)
    end.

#[global] Instance gen_ret : MRet gen := @ret.
#[global] Instance gen_bind : MBind gen := fun A B f m => bind m f.

Definition lift {A} (r : result A) : gen A := fun p => Run [] p r.

Definition act (a : action) : gen unit := fun p => Run [a] p (Ok tt).

(** A suspension point. *)
Definition await : gen unit :=
  fun p =>
    match p with
    | None => Run [] None (Ok tt)
    | Some (S n) => Run [] (Some n) (Ok tt)
    | Some O => Run [] (Some O) (Raise CancelledError)
    end.

Definition yield_ (e : event) : gen unit := act (Yield e);; await.

Definition sleep (ms : Z) : gen unit := act (Sleep ms);; await.

(** [try: body  except E: handler], for the exceptions [E] that [catches]
    accepts. *)
Definition try_except {A} (body : gen A) (catches : exn -> bool) (handler : gen A)
  : gen A :=
  fun p =>
    let r := body p in
    match outcome r with
    | Ok _ => r
    | Raise e =>
        if catches e
        then let r' := handler (rest r) in
             Run (trace r ++ trace r') (rest r') (outcome r')
        else r
    end.

(** [async with enter as x: body]: [leave] runs however [body] ends, and
    does not swallow the exception. *)
Definition async_with {A B} (enter : gen A) (leave : gen unit) (body : A -> gen B)
  : gen B :=
  fun p =>
    let r0 := enter p in
    match outcome r0 with
    | Raise e => Run (trace r0) (rest r0) (Raise e)
    | Ok x =>
        let r1 := body x (rest r0) in
        let r2 := leave (rest r1) in
        Run (trace r0 ++ trace r1 ++ trace r2) (rest r2)
            (match outcome r2 with Ok _ => outcome r1 | Raise e => Raise e end)
    end.

(** [client.stream(...)] as a context manager: the request is sent and the
    response head awaited. *)
Definition client_stream (r : request) (u : upstream) : gen response :=
  act (Connect r);;
  await;;
  match u with
  | Refused e => raise e
  | Accepted resp => ret resp
  end.

(* ------------------------------------------------------------------ *)
(** ** [event_stream] *)

(** The [json=] argument of the request (lines 26-30). *)
Definition ai_request : request :=
  Request "POST" "http://localhost:11434/api/generate"
    (JObj (<["model" := JStr "llama3.2"]>
           (<["prompt" := JStr "What is the capital of France?"]>
            (<["stream" := JBool true]> ∅)))).

Definition start_event : event := Event Message (JStr "Starting event stream<br>").

Definition status_event (code : Z) : event :=
  Event Status (JStr ("HTTP Status Code: " +:+ pretty code +:+ "<br>")).

Definition closing_event : event := Event Message (JStr "<br> closing stream <br>").

Definition close_event : event := Event Close (JStr "").

(** How an iteration of the loop ends: [continue] or falling off the end
    of the body, or [break]. *)
Inductive flow := Next | Break.

(** [not line.strip()] (line 39). *)
Definition blank (line : string) : bool := negb (Str.to_bool (Str.strip line)).

Section Relay.

(** [json.loads], as any function from a line to a value or an
    exception. *)
Variable json_loads : string -> result json.

(** The [try] statement of lines 41-52, for one line. *)
Definition relay_line (line : string) : gen flow :=
  try_except
    (data ← lift (json_loads line);
     chunk ← lift (py_get data "response" (JStr ""));
     act (Prints (LogChunk chunk));;
     sleep 300;;
     yield_ (Event Message chunk);;
     done ← lift (py_get data "done" JNull);
     if truthy done then mret Break else mret Next)
    is_JSONDecodeError
    (act (Prints (LogDecodeError line));; mret Next).

(** [async for line in resp.aiter_lines(): ...] (lines 38-52) over the
    lines still to come; [failure] is how the body ends. Asking for the
    next line is a point at which the cancellation can arrive. When the
    line is already in the buffer of [httpx] the generator is not
    suspended there and cannot be cancelled there: such a run is the run
    of a consumer with one more unit of patience. What holds for every
    patience holds for these runs too; no count of suspensions is taken
    from this model. *)
Fixpoint aiter_lines (failure : option exn) (ls : list string) : gen unit :=
  match ls with
  | [] =>
      await;;
      match failure with
      | None => mret tt
      | Some e => raise e
      end
  | line :: ls' =>
      await;;
      act (NextLine line);;
      if blank line
      then aiter_lines failure ls'
      else
        f ← relay_line line;
        match f with
        | Break => mret tt
        | Next => aiter_lines failure ls'
        end
  end.

(** The generator of lines 21-55. *)
Definition event_stream (u : upstream) : gen unit :=
  async_with (act ClientOpen) (act ClientClose) (fun _ =>
    async_with (client_stream ai_request u) (act ResponseClose) (fun resp =>
      yield_ start_event;;
      sleep 1000;;
      act (Prints (LogStatus (status_code resp)));;
      yield_ (status_event (status_code resp));;
      sleep 1000;;
      aiter_lines (body_failure resp) (body_lines resp)));;
  yield_ closing_event;;
  sleep 1000;;
  yield_ close_event.

End Relay.

(* ------------------------------------------------------------------ *)
(** ** Observing a run *)

(** The events among a list of actions, and the events a run hands to the
    consumer, in order. *)
Definition yields (t : list action) : list event :=
  omap (fun a => match a with Yield e => Some e | _ => None end) t.

Definition events {A} (r : run A) : list event := yields (trace r).

(** The lines taken from [aiter_lines], in order. *)
Definition next_lines (t : list action) : list string :=
  omap (fun a => match a with NextLine l => Some l | _ => None end) t.

(** A run after the actions [t], and a run followed by the actions [t]. *)
Definition prepend {A} (t : list action) (r : run A) : run A :=
  Run (t ++ trace r) (rest r) (outcome r).

Definition followed_by {A} (r : run A) (t : list action) : run A :=
  Run (trace r ++ t) (rest r) (outcome r).

(** A consumer with patience [p] lets the generator through a suspension
    point, and has patience [q] left. *)
Definition resumes (p q : patience) : Prop := await p = Run [] q (Ok tt).

(** The consumer stays for at least [n] suspension points. *)
Definition stays_for (n : nat) (p : patience) : Prop :=
  match p with
  | None => True
  | Some k => (n <= k)%nat
  end.

(** A run with any patience against the run of the same generator with a
    consumer that stays: either it yields the same events and ends the
    same way, or it was cancelled after yielding some of them. A generator
    is tame when all its runs are such, and a consumer that stays still
    stays after it. *)
Definition cut {A} (r ideal : run A) : Prop :=
  (events r = events ideal /\ outcome r = outcome ideal)
  \/ (outcome r = Raise CancelledError /\ events r `prefix_of` events ideal).

Definition tame {A} (m : gen A) : Prop :=
  rest (m None) = None /\ forall p, cut (m p) (m None).

(** Every action of every run of the generator satisfies [Q]. *)
Definition emits {A} (Q : action -> Prop) (m : gen A) : Prop :=
  forall p, Forall Q (trace (m p)).


(** Two actions that are the same, or that print or report one status
    code each; two runs that do such actions one by one, and end the same
    way. *)
Inductive same_but_status : action -> action -> Prop :=
| sbs_same a : same_but_status a a
| sbs_print c c' : same_but_status (Prints (LogStatus c)) (Prints (LogStatus c'))
| sbs_yield c c' : same_but_status (Yield (status_event c)) (Yield (status_event c')).

Definition alike {A} (r r' : run A) : Prop :=
  Forall2 same_but_status (trace r) (trace r')
  /\ rest r = rest r' /\ outcome r = outcome r'.

(** What precedes the loop in a session whose request was answered, what
    the two [async with] blocks do on the way out, and what follows them. *)
Definition preamble (code : Z) : list action :=
  [ClientOpen; Connect ai_request; Yield start_event; Sleep 1000;
   Prints (LogStatus code); Yield (status_event code); Sleep 1000].

Definition release : list action := [ResponseClose; ClientClose].

Definition farewell : list action :=
  [Yield closing_event; Sleep 1000; Yield close_event].

(** The events between the two that open a session and the two that end
    it: in a session that runs to its end, the [message] events that carry
    decoded fragments. *)
Definition fragments (evs : list event) : list event :=
  drop 2 (take (length evs - 2)%nat evs).

(* ------------------------------------------------------------------ *)
(** ** What the loop makes of a line *)

(** Skipped as blank, dropped as undecodable, relayed (and whether the
    loop then stops), or the exception that leaves the loop. *)
Inductive verdict :=
| Skipped
| Dropped
| Relayed (chunk : json) (stop : bool)
| Failed (e : exn).

Section Reading.

Variable json_loads : string -> result json.

Definition verdict_of (line : string) : verdict :=
  if blank line then Skipped
  else match json_loads line with
       | Raise e => if is_JSONDecodeError e then Dropped else Failed e
       | Ok (JObj m) =>
           Relayed (default (JStr "") (m !! "response"))
                   (truthy (default JNull (m !! "done")))
       | Ok _ => Failed AttributeError
       end.

(** The chunks the loop relays to a consumer that stays, how the loop
    ends, and the lines it takes from the iterator, read off the
    verdicts. *)
Fixpoint relayed (ls : list string) : list json :=
  match ls with
  | [] => []
  | line :: ls' =>
      match verdict_of line with
      | Skipped | Dropped => relayed ls'
      | Relayed chunk stop => chunk :: (if stop then [] else relayed ls')
      | Failed _ => []
      end
  end.

Fixpoint ending (failure : option exn) (ls : list string) : result unit :=
  match ls with
  | [] => match failure with None => Ok tt | Some e => Raise e end
  | line :: ls' =>
      match verdict_of line with
      | Skipped | Dropped => ending failure ls'
      | Relayed _ stop => if stop then Ok tt else ending failure ls'
      | Failed e => Raise e
      end
  end.

Fixpoint consumed (ls : list string) : list string :=
  match ls with
  | [] => []
  | line :: ls' =>
      line :: match verdict_of line with
              | Skipped | Dropped | Relayed _ false => consumed ls'
              | Relayed _ true | Failed _ => []
              end
  end.

(** A line the loop gets past without an exception: blank, undecodable,
    or a JSON object. *)
Definition harmless (line : string) : Prop :=
  blank line = true
  \/ json_loads line = Raise JSONDecodeError
  \/ exists m, json_loads line = Ok (JObj m).

(** A line after which the loop goes on to the next one: blank,
    undecodable, or a JSON object whose ["done"] does not test true. *)
Definition passes (line : string) : Prop :=
  blank line = true
  \/ json_loads line = Raise JSONDecodeError
  \/ exists m, json_loads line = Ok (JObj m)
               /\ truthy (default JNull (m !! "done")) = false.

(** The [done] flag of a decoded line, as the loop tests it; a value that
    is not an object has none. *)
Definition done_flag (v : json) : bool :=
  match v with
  | JObj m => truthy (default JNull (m !! "done"))
  | _ => false
  end.

(** The count of property 2 of the specification, in its words: the
    syntactically valid, non-empty lines up to and including the first one
    whose [done] flag is true. *)
Fixpoint valid_upto_done (ls : list string) : nat :=
  match ls with
  | [] => O
  | line :: ls' =>
      if blank line then valid_upto_done ls'
      else match json_loads line with
           | Ok v => if done_flag v then 1%nat else S (valid_upto_done ls')
           | Raise _ => valid_upto_done ls'
           end
  end.

(** Every event sequence of a session whose request is answered with a
    given status code and given lines is the beginning of one and the same
    sequence, and is all of it when the generator returns. *)
Definition full_events (code : Z) (ls : list string) : list event :=
  [start_event; status_event code]
  ++ (Event Message <$> relayed ls)
  ++ [closing_event; close_event].

End Reading.

(* ------------------------------------------------------------------ *)
(** ** The properties of the specification *)

(** Exactly one [close] event, and it is the last event. *)
Definition closes_once (evs : list event) : Prop :=
  exists pre, evs = pre ++ [close_event]
              /\ Forall (fun e => ev_kind e <> Close) pre.

(** At most one [close] event, and nothing after it. *)
Definition close_only_last (evs : list event) : Prop :=
  forall pre e post, evs = pre ++ e :: post -> ev_kind e = Close ->
                     post = [] /\ Forall (fun e => ev_kind e <> Close) pre.

(** A failure that was turned into events: the generator returns, and its
    last two events are a [status] or [message] event and the [close]
    event. *)
Definition failure_reported (r : run unit) : Prop :=
  outcome r = Ok tt
  /\ exists pre d, events r = pre ++ [d; close_event] /\ ev_kind d <> Close.

(** The stream-start event is emitted, and the request is sent only after
    it. *)
Definition start_precedes_connect (t : list action) : Prop :=
  exists i j r, t !! i = Some (Yield start_event)
                /\ t !! j = Some (Connect r) /\ (i < j)%nat.

(** The upstream lines of property 3 of the specification. *)
Definition sample_lines : list string :=
  [(Json.text "{'response':'A','done':false}");
   "not-json";
   (Json.text "{'response':'B','done':true}");
   (Json.text "{'response':'C','done':false}")]%string.

(** A connection failure, and an answered request with a given body that
    ends well. *)
Definition connect_error : exn := TransportError "ConnectError".

Definition answered (code : Z) (ls : list string) : upstream :=
  Accepted (Response code ls None).

(* ------------------------------------------------------------------ *)
(** ** Further observations of a trace *)

(** The actions that open and close the client and the response. *)
Definition lifecycle (a : action) : bool :=
  match a with
  | ClientOpen | ClientClose | Connect _ | ResponseClose => true
  | _ => false
  end.

(** Whether the response of [client.stream] is acquired: the request is
    answered and the consumer is still there when it is. *)
Definition acquired (u : upstream) (p : patience) : bool :=
  match u, p with
  | Accepted _, Some O => false
  | Accepted _, _ => true
  | Refused _, _ => false
  end.

(** The time spent in [asyncio.sleep], in milliseconds. *)
Definition slept (t : list action) : Z :=
  foldr (fun a acc => match a with Sleep ms => ms + acc | _ => acc end) 0 t.

(** The two actions that leave an [async with] block. *)
Definition releasing (a : action) : Prop := a = ResponseClose \/ a = ClientClose.

(** A run with any patience against the run of the same generator with a
    consumer that stays: either it does the same actions and ends the same
    way, or it is cancelled after the beginning of them, and then does
    nothing but leave the [async with] blocks it is in. A generator
    unwinds when all its runs are such. *)
Definition unwound {A} (r ideal : run A) : Prop :=
  (trace r = trace ideal /\ outcome r = outcome ideal)
  \/ (outcome r = Raise CancelledError
      /\ exists t rel,
           trace r = t ++ rel
           /\ t `prefix_of` trace ideal
           /\ Forall releasing rel).

Definition unwinds {A} (m : gen A) : Prop :=
  rest (m None) = None /\ forall p, unwound (m p) (m None).

(** The events of a session that runs to its end, given the chunks it
    relays. *)
Definition script (code : Z) (chunks : list json) : list event :=
  [start_event; status_event code]
  ++ (Event Message <$> chunks)
  ++ [closing_event; close_event].

(** The value the loop relays for a decoded object. *)
Definition chunk_of (m : gmap string json) : json := default (JStr "") (m !! "response").

(** The two blocks of [event_stream] besides the context managers: what
    is done with the response (lines 32-52), and what is done after the
    two [async with] blocks (lines 53-55). *)
Definition relay_body (json_loads : string -> result json) (resp : response)
  : gen unit :=
  yield_ start_event;;
  sleep 1000;;
  act (Prints (LogStatus (status_code resp)));;
  yield_ (status_event (status_code resp));;
  sleep 1000;;
  aiter_lines json_loads (body_failure resp) (body_lines resp).

Definition say_farewell : gen unit :=
  yield_ closing_event;;
  sleep 1000;;
  yield_ close_event.

(** Every run of the generator takes lines from the front of [ls], in
    order. *)
Definition takes_from {A} (ls : list string) (m : gen A) : Prop :=
  forall p, next_lines (trace (m p)) `prefix_of` ls.

(* ------------------------------------------------------------------ *)
(** * Facts *)

(** ** Equations of the monad *)

Lemma prepend_nil {A} (r : run A) : prepend [] r = r.
Proof. by destruct r. Qed.

Lemma prepend_prepend {A} t1 t2 (r : run A) :
  prepend t1 (prepend t2 r) = prepend (t1 ++ t2) r.
Proof. unfold prepend; cbn. by rewrite app_assoc. Qed.

Lemma yields_app t1 t2 : yields (t1 ++ t2) = yields t1 ++ yields t2.
Proof. apply omap_app. Qed.

Lemma next_lines_app t1 t2 : next_lines (t1 ++ t2) = next_lines t1 ++ next_lines t2.
Proof. apply omap_app. Qed.

Lemma events_prepend {A} t (r : run A) : events (prepend t r) = yields t ++ events r.
Proof. apply yields_app. Qed.

Lemma bind_run {A B} (m : gen A) (f : A -> gen B) p :
  (m ≫= f) p =
  match outcome (m p) with
  | Ok a => prepend (trace (m p)) (f a (rest (m p)))
  | Raise e => Run (trace (m p)) (rest (m p)) (Raise e)
  end.
Proof. reflexivity. Qed.

Lemma bind_act {B} a (k : unit -> gen B) p : (act a ≫= k) p = prepend [a] (k tt p).
Proof. reflexivity. Qed.

Lemma bind_lift_ok {A B} (a : A) (k : A -> gen B) p : (lift (Ok a) ≫= k) p = k a p.
Proof. rewrite bind_run; cbn. apply prepend_nil. Qed.

Lemma bind_lift_raise {A B} e (k : A -> gen B) p :
  (lift (Raise e) ≫= k) p = Run [] p (Raise e).
Proof. reflexivity. Qed.

Lemma resumes_None : resumes None None.
Proof. reflexivity. Qed.

Lemma resumes_S n : resumes (Some (S n)) (Some n).
Proof. reflexivity. Qed.

Lemma await_cases p : (exists q, resumes p q) \/ p = Some O.
Proof. destruct p as [[|n]|]; [by right|left..]; eexists; reflexivity. Qed.

Lemma bind_await {B} (k : unit -> gen B) p q :
  resumes p q -> (await ≫= k) p = k tt q.
Proof. intros H. rewrite bind_run, H; cbn. apply prepend_nil. Qed.

Lemma yield_run e p q : resumes p q -> yield_ e p = Run [Yield e] q (Ok tt).
Proof. intros H. unfold yield_. rewrite bind_act. red in H. by rewrite H. Qed.

Lemma sleep_run ms p q : resumes p q -> sleep ms p = Run [Sleep ms] q (Ok tt).
Proof. intros H. unfold sleep. rewrite bind_act. red in H. by rewrite H. Qed.

Lemma bind_yield {B} e (k : unit -> gen B) p q :
  resumes p q -> (yield_ e ≫= k) p = prepend [Yield e] (k tt q).
Proof. intros H. by rewrite bind_run, (yield_run _ _ _ H). Qed.

Lemma bind_sleep {B} ms (k : unit -> gen B) p q :
  resumes p q -> (sleep ms ≫= k) p = prepend [Sleep ms] (k tt q).
Proof. intros H. by rewrite bind_run, (sleep_run _ _ _ H). Qed.

Lemma async_with_acts {B} a b (body : unit -> gen B) p :
  async_with (act a) (act b) body p = prepend [a] (followed_by (body tt p) [b]).
Proof. reflexivity. Qed.

Lemma client_stream_accepted r resp p q :
  resumes p q -> client_stream r (Accepted resp) p = Run [Connect r] q (Ok resp).
Proof.
  intros H. unfold client_stream. rewrite bind_act, (bind_await _ _ _ H).
  reflexivity.
Qed.

Lemma async_with_entered {A B} (enter : gen A) b (body : A -> gen B) p t q x :
  enter p = Run t q (Ok x) ->
  async_with enter (act b) body p = prepend t (followed_by (body x q) [b]).
Proof. intros H. unfold async_with. by rewrite H. Qed.

(* ------------------------------------------------------------------ *)
(** ** One iteration of the loop *)

Section Iteration.

Variable json_loads : string -> result json.

Lemma relay_line_dropped line p :
  json_loads line = Raise JSONDecodeError ->
  relay_line json_loads line p = Run [Prints (LogDecodeError line)] p (Ok Next).
Proof. intros H. unfold relay_line, try_except. by rewrite H. Qed.

Lemma relay_line_raises line e p :
  json_loads line = Raise e -> is_JSONDecodeError e = false ->
  relay_line json_loads line p = Run [] p (Raise e).
Proof.
  intros H He. unfold relay_line, try_except.
  rewrite H, bind_lift_raise; cbn [outcome]. by rewrite He.
Qed.

Lemma relay_line_no_get line v p :
  json_loads line = Ok v -> (forall m, v <> JObj m) ->
  relay_line json_loads line p = Run [] p (Raise AttributeError).
Proof.
  intros H Hv. unfold relay_line, try_except. rewrite H.
  destruct v; try reflexivity. by destruct (Hv m).
Qed.

Lemma relay_line_object line m p q q' :
  json_loads line = Ok (JObj m) -> resumes p q -> resumes q q' ->
  let chunk := default (JStr "") (m !! "response") in
  relay_line json_loads line p =
  Run [Prints (LogChunk chunk); Sleep 300; Yield (Event Message chunk)] q'
      (Ok (if truthy (default JNull (m !! "done")) then Break else Next)).
Proof.
  intros H Hp Hq chunk. unfold relay_line, try_except. rewrite H.
  rewrite bind_lift_ok. change (py_get (JObj m) "response" (JStr "")) with (Ok chunk).
  rewrite bind_lift_ok, bind_act.
  rewrite bind_run, (sleep_run _ _ _ Hp); cbn [outcome trace rest].
  rewrite bind_run, (yield_run _ _ _ Hq); cbn [outcome trace rest].
  change (py_get (JObj m) "done" JNull) with (Ok (default JNull (m !! "done"))).
  rewrite bind_lift_ok.
  by destruct (truthy _).
Qed.

(** The head of the loop: a line is awaited, taken, and unless it is blank
    handed to the [try] statement. *)
Lemma aiter_lines_step failure line ls p q :
  resumes p q ->
  aiter_lines json_loads failure (line :: ls) p =
  prepend [NextLine line]
    (if blank line then aiter_lines json_loads failure ls q
     else (f ← relay_line json_loads line;
           match f with
           | Break => mret tt
           | Next => aiter_lines json_loads failure ls
           end) q).
Proof.
  intros H. cbn [aiter_lines]. rewrite (bind_await _ _ _ H), bind_act.
  by destruct (blank line).
Qed.

Lemma aiter_lines_nil failure :
  aiter_lines json_loads failure [] None =
  Run [] None (match failure with None => Ok tt | Some e => Raise e end).
Proof. by destruct failure. Qed.

(** The loop on its first line, for a consumer that stays. *)
Lemma aiter_lines_cons failure line ls :
  aiter_lines json_loads failure (line :: ls) None =
  match verdict_of json_loads line with
  | Skipped => prepend [NextLine line] (aiter_lines json_loads failure ls None)
  | Dropped =>
      prepend [NextLine line; Prints (LogDecodeError line)]
              (aiter_lines json_loads failure ls None)
  | Relayed chunk stop =>
      prepend [NextLine line; Prints (LogChunk chunk); Sleep 300;
               Yield (Event Message chunk)]
              (if stop then Run [] None (Ok tt)
               else aiter_lines json_loads failure ls None)
  | Failed e => Run [NextLine line] None (Raise e)
  end.
Proof.
  rewrite (aiter_lines_step _ _ _ _ _ resumes_None).
  unfold verdict_of. destruct (blank line); [done|].
  rewrite bind_run.
  destruct (json_loads line) as [v|e] eqn:H.
  - destruct v as [| | | | | |m];
      try (by rewrite (relay_line_no_get _ _ _ H)).
    rewrite (relay_line_object _ _ _ _ _ H resumes_None resumes_None).
    cbn [outcome trace rest].
    destruct (truthy _); [|by rewrite prepend_prepend].
    reflexivity.
  - destruct (is_JSONDecodeError e) eqn:He.
    + destruct e; try discriminate.
      rewrite (relay_line_dropped _ _ H); cbn [outcome trace rest].
      by rewrite prepend_prepend.
    + by rewrite (relay_line_raises _ _ _ H He).
Qed.

Lemma aiter_lines_stays failure ls :
  rest (aiter_lines json_loads failure ls None) = None.
Proof.
  induction ls as [|line ls IH]; [by rewrite aiter_lines_nil|].
  rewrite aiter_lines_cons.
  destruct (verdict_of json_loads line) as [| |chunk [|]|e]; done.
Qed.

Lemma aiter_lines_summary failure ls :
  let r := aiter_lines json_loads failure ls None in
  events r = Event Message <$> relayed json_loads ls
  /\ outcome r = ending json_loads failure ls
  /\ next_lines (trace r) = consumed json_loads ls.
Proof.
  induction ls as [|line ls (IHe & IHo & IHn)]; cbn zeta.
  { rewrite aiter_lines_nil. by destruct failure. }
  rewrite aiter_lines_cons. cbn [relayed ending consumed].
  destruct (verdict_of json_loads line) as [| |chunk [|]|e];
    unfold events, prepend; cbn [trace outcome];
    rewrite ?yields_app, ?next_lines_app; cbn;
    rewrite ?IHo; repeat split; try done; f_equal; done.
Qed.

(** The verdicts of the lines named in the theorems. *)
Lemma verdict_blank line : blank line = true -> verdict_of json_loads line = Skipped.
Proof. intros H. unfold verdict_of. by rewrite H. Qed.

Lemma verdict_dropped line :
  blank line = false -> json_loads line = Raise JSONDecodeError ->
  verdict_of json_loads line = Dropped.
Proof. intros Hb H. unfold verdict_of. by rewrite Hb, H. Qed.

Lemma verdict_object line m :
  blank line = false -> json_loads line = Ok (JObj m) ->
  verdict_of json_loads line =
  Relayed (default (JStr "") (m !! "response")) (truthy (default JNull (m !! "done"))).
Proof. intros Hb H. unfold verdict_of. by rewrite Hb, H. Qed.

Lemma verdict_no_get line v :
  blank line = false -> json_loads line = Ok v -> (forall m, v <> JObj m) ->
  verdict_of json_loads line = Failed AttributeError.
Proof.
  intros Hb H Hv. unfold verdict_of. rewrite Hb, H.
  destruct v; try done. by destruct (Hv m).
Qed.

Lemma harmless_verdict line :
  harmless json_loads line ->
  verdict_of json_loads line = Skipped
  \/ verdict_of json_loads line = Dropped
  \/ exists chunk stop, verdict_of json_loads line = Relayed chunk stop.
Proof.
  intros H. destruct (blank line) eqn:Hb; [left; by apply verdict_blank|].
  destruct H as [H|[H|[m H]]]; [congruence| |].
  - right; left. by apply verdict_dropped.
  - right; right. rewrite (verdict_object _ _ Hb H). eauto.
Qed.

Lemma passes_verdict line :
  passes json_loads line ->
  verdict_of json_loads line = Skipped
  \/ verdict_of json_loads line = Dropped
  \/ exists chunk, verdict_of json_loads line = Relayed chunk false.
Proof.
  intros H. destruct (blank line) eqn:Hb; [left; by apply verdict_blank|].
  destruct H as [H|[H|(m & H & Hd)]]; [congruence| |].
  - right; left. by apply verdict_dropped.
  - right; right. rewrite (verdict_object _ _ Hb H), Hd. eauto.
Qed.

Lemma harmless_ending ls :
  Forall (harmless json_loads) ls -> ending json_loads None ls = Ok tt.
Proof.
  induction 1 as [|line ls H _ IH]; [done|]. cbn [ending].
  destruct (harmless_verdict _ H) as [->|[->|(chunk & stop & ->)]]; try done.
  by destruct stop.
Qed.

End Iteration.

(* ------------------------------------------------------------------ *)
(** ** The session of a consumer that stays *)

Section Session.

Variable json_loads : string -> result json.

Lemma event_stream_accepted resp :
  let body := aiter_lines json_loads (body_failure resp) (body_lines resp) None in
  event_stream json_loads (Accepted resp) None =
  match outcome body with
  | Ok _ =>
      Run (preamble (status_code resp) ++ trace body ++ release ++ farewell)
          None (Ok tt)
  | Raise e =>
      Run (preamble (status_code resp) ++ trace body ++ release) None (Raise e)
  end.
Proof.
  intros body. unfold event_stream.
  rewrite bind_run, async_with_acts.
  rewrite (async_with_entered _ _ _ _ _ _ _
             (client_stream_accepted _ _ _ _ resumes_None)).
  rewrite (bind_yield _ _ _ _ resumes_None), (bind_sleep _ _ _ _ resumes_None).
  rewrite bind_act, (bind_yield _ _ _ _ resumes_None).
  rewrite (bind_sleep _ _ _ _ resumes_None).
  fold body. unfold prepend, followed_by. cbn [outcome rest trace].
  assert (rest body = None) as -> by apply aiter_lines_stays.
  destruct (outcome body) as [[]|e]; cbn; f_equal.
  - by rewrite <- !app_assoc.
  - by rewrite <- !app_assoc.
Qed.

Lemma session_summary resp :
  let r := event_stream json_loads (Accepted resp) None in
  let ls := body_lines resp in
  let e := ending json_loads (body_failure resp) ls in
  events r = [start_event; status_event (status_code resp)]
             ++ (Event Message <$> relayed json_loads ls)
             ++ match e with Ok _ => [closing_event; close_event] | Raise _ => [] end
  /\ outcome r = e
  /\ next_lines (trace r) = consumed json_loads ls.
Proof.
  cbn zeta. rewrite event_stream_accepted.
  destruct (aiter_lines_summary json_loads (body_failure resp) (body_lines resp))
    as (He & Ho & Hn).
  rewrite Ho. unfold events in *.
  destruct (ending _ _ _) as [[]|e]; cbn [trace outcome];
    rewrite !yields_app, !next_lines_app, He, Hn; cbn;
    rewrite ?app_nil_r; done.
Qed.

Lemma fragments_framed a b (l : list event) c d :
  fragments ([a; b] ++ l ++ [c; d]) = l.
Proof.
  unfold fragments. cbn [app drop length].
  replace (S (S (length (l ++ [c; d]))) - 2)%nat with (S (S (length l)))
    by (rewrite length_app; cbn; lia).
  cbn [take drop]. by rewrite take_app_length.
Qed.

End Session.

(* ------------------------------------------------------------------ *)
(** ** The reference decoder and [blank] on sample texts *)

Example loads_object :
  Json.loads (Json.text "{'response':'A','done':false}")
  = Ok (JObj (<["response" := JStr "A"]> (<["done" := JBool false]> ∅))).
Proof. vm_compute; reflexivity. Qed.

Example loads_spaced :
  Json.loads (Json.text " { 'a' : [ 1 , -2 , null ] , 'b' : { } } ")
  = Ok (JObj (<["a" := JArr [JInt 1; JInt (-2); JNull]]> (<["b" := JObj ∅]> ∅))).
Proof. vm_compute; reflexivity. Qed.

Example loads_repeated_key :
  Json.loads (Json.text "{'a':1,'a':2}") = Ok (JObj (<["a" := JInt 2]> ∅)).
Proof. vm_compute; reflexivity. Qed.

Example loads_scalars :
  Json.loads "5" = Ok (JInt 5)
  /\ Json.loads "-0" = Ok (JInt 0)
  /\ Json.loads (Json.text "'x'") = Ok (JStr "x")
  /\ Json.loads "null" = Ok JNull
  /\ Json.loads "true" = Ok (JBool true)
  /\ Json.loads "[]" = Ok (JArr [])
  /\ Json.loads "NaN" = Ok (JFloat S754_nan)
  /\ Json.loads "-Infinity" = Ok (JFloat (S754_infinity true)).
Proof. repeat split; vm_compute; reflexivity. Qed.

Example loads_floats :
  Json.loads "0.5" = Ok (JFloat (S754_finite false 4503599627370496 (-53)))
  /\ Json.loads "0.1" = Ok (JFloat (S754_finite false 7205759403792794 (-56)))
  /\ Json.loads "1e2" = Ok (JFloat (S754_finite false 7036874417766400 (-46)))
  /\ Json.loads "-0.0" = Ok (JFloat (S754_zero true))
  /\ Json.loads "5e-324" = Ok (JFloat (S754_finite false 1 (-1074)))
  /\ Json.loads "1e-400" = Ok (JFloat (S754_zero false))
  /\ Json.loads "1e400" = Ok (JFloat (S754_infinity false)).
Proof. repeat split; vm_compute; reflexivity. Qed.

Example loads_escapes :
  Json.loads (Json.text "'aA\né'")
  = Ok (JStr (String "a" (String "A" (String "010" (String "195" (String "169" "")))))).
Proof. vm_compute; reflexivity. Qed.

Example loads_unicode_escapes :
  Json.loads (Json.text "'\u0041\u00e9\ud83d\ude00'")
  = Ok (JStr (String "A" (String "195" (String "169"
         (String "240" (String "159" (String "152" (String "128" "")))))))).
Proof. vm_compute; reflexivity. Qed.

Example loads_rejects :
  Forall (fun s => Json.loads s = Raise JSONDecodeError)
    ["not-json"; ""; "01"; "1."; "-"; "[1,]"; "{} x"; "nul"; "+1"; ".5";
     Json.text "{'a':1,}"; Json.text "{a:1}"; Json.text "'abc"; Json.text "'\x'";
     Json.text "{'a' 1}"; "[1 2]"; "tru"; "Nan"].
Proof. repeat constructor; vm_compute; reflexivity. Qed.

Example blank_lines :
  blank "" = true
  /\ blank "   " = true
  /\ blank (String "009" (String "013" "")) = true
  /\ blank (String "194" (String "160" " ")) = true
  /\ blank (String "226" (String "128" (String "168" ""))) = true
  /\ blank " x " = false
  /\ blank (String "160" "") = false
  /\ blank "5" = false.
Proof. repeat split; vm_compute; reflexivity. Qed.

Example truthy_values :
  truthy (JBool true) = true
  /\ truthy (JInt 1) = true
  /\ truthy (JStr "no") = true
  /\ truthy JNull = false
  /\ truthy (JInt 0) = false
  /\ truthy (JStr "") = false
  /\ truthy (JArr []) = false
  /\ truthy (JObj ∅) = false
  /\ truthy (JFloat (S754_zero true)) = false.
Proof. repeat split; vm_compute; reflexivity. Qed.

(* ------------------------------------------------------------------ *)
(** ** Consumers that leave *)

Lemma tame_lift {A} (x : result A) : tame (lift x).
Proof. split; [done|]. intros p. by left. Qed.

Lemma tame_ret {A} (a : A) : tame (mret a : gen A).
Proof. apply (tame_lift (Ok a)). Qed.

Lemma tame_raise {A} e : tame (raise e : gen A).
Proof. apply (tame_lift (Raise e)). Qed.

Lemma tame_act a : tame (act a).
Proof. split; [done|]. intros p. by left. Qed.

Lemma tame_await : tame await.
Proof.
  split; [done|]. intros [[|n]|]; [right|left..]; done.
Qed.

Lemma tame_bind {A B} (m : gen A) (f : A -> gen B) :
  tame m -> (forall a, tame (f a)) -> tame (m ≫= f).
Proof.
  intros [Hm Hcut] Hf. split.
  - rewrite bind_run. destruct (outcome (m None)) as [a|e]; [|done].
    cbn. rewrite Hm. apply Hf.
  - intros p. rewrite !bind_run, Hm. unfold cut.
    destruct (Hcut p) as [[He Ho]|[Ho He]].
    + rewrite Ho. destruct (outcome (m None)) as [a|e]; [|by left].
      rewrite !events_prepend. fold (events (m p)) (events (m None)). rewrite He.
      destruct (Hf a) as [_ Hfa].
      destruct (Hfa (rest (m p))) as [[He' Ho']|[Ho' He']].
      * left. by rewrite He'.
      * right. split; [done|]. by apply prefix_app.
    + rewrite Ho. right. split; [done|].
      etrans; [exact He|].
      destruct (outcome (m None)); [|done].
      rewrite events_prepend. by apply prefix_app_r.
Qed.

Lemma tame_try_except {A} (body handler : gen A) catches :
  catches CancelledError = false ->
  tame body -> tame handler -> tame (try_except body catches handler).
Proof.
  intros Hc [Hb Hcut] [Hh Hcut']. split.
  - unfold try_except. destruct (outcome (body None)) as [a|e]; [done|].
    destruct (catches e); [|done]. cbn. by rewrite Hb.
  - intros p. unfold try_except, cut. rewrite Hb.
    destruct (Hcut p) as [[He Ho]|[Ho He]].
    + rewrite Ho. destruct (outcome (body None)) as [a|e] eqn:Hi; [left; by rewrite Ho|].
      destruct (catches e); [|left; by rewrite Ho].
      unfold events in *; cbn [trace outcome]. rewrite !yields_app, He.
      destruct (Hcut' (rest (body p))) as [[He' Ho']|[Ho' He']].
      * left. unfold events in He'. by rewrite He'.
      * right. split; [done|]. by apply prefix_app.
    + rewrite Ho, Hc. right. split; [done|].
      etrans; [exact He|].
      destruct (outcome (body None)) as [a|e]; [done|].
      destruct (catches e); [|done].
      unfold events; cbn [trace]. rewrite yields_app. by apply prefix_app_r.
Qed.

Lemma tame_async_with {A B} (enter : gen A) b (body : A -> gen B) :
  yields [b] = [] ->
  tame enter -> (forall x, tame (body x)) -> tame (async_with enter (act b) body).
Proof.
  intros Hb [He Hcut] Hbody. split.
  - unfold async_with. destruct (outcome (enter None)) as [x|e]; [|done].
    cbn. rewrite He. apply Hbody.
  - intros p. unfold async_with, cut. rewrite He.
    destruct (Hcut p) as [[Hev Ho]|[Ho Hev]].
    + rewrite Ho. destruct (outcome (enter None)) as [x|e]; [|by left].
      unfold events in *; cbn [trace outcome rest act].
      rewrite !yields_app, Hb, !app_nil_r, Hev.
      destruct (Hbody x) as [_ Hx].
      destruct (Hx (rest (enter p))) as [[He' Ho']|[Ho' He']].
      * left. unfold events in He'. by rewrite He', Ho'.
      * right. rewrite Ho'. split; [done|]. by apply prefix_app.
    + rewrite Ho. right. split; [done|].
      etrans; [exact Hev|].
      destruct (outcome (enter None)) as [x|e]; [|done].
      unfold events; cbn [trace]. rewrite yields_app. by apply prefix_app_r.
Qed.

Lemma tame_yield e : tame (yield_ e).
Proof. apply tame_bind; [apply tame_act|intros _; apply tame_await]. Qed.

Lemma tame_sleep ms : tame (sleep ms).
Proof. apply tame_bind; [apply tame_act|intros _; apply tame_await]. Qed.

Lemma tame_client_stream r u : tame (client_stream r u).
Proof.
  apply tame_bind; [apply tame_act|intros _].
  apply tame_bind; [apply tame_await|intros _].
  destruct u; [apply tame_raise|apply tame_ret].
Qed.

Section Tame.

Variable json_loads : string -> result json.

Lemma tame_relay_line line : tame (relay_line json_loads line).
Proof.
  apply tame_try_except; [done| |].
  - apply tame_bind; [apply tame_lift|intros data].
    apply tame_bind; [apply tame_lift|intros chunk].
    apply tame_bind; [apply tame_act|intros _].
    apply tame_bind; [apply tame_sleep|intros _].
    apply tame_bind; [apply tame_yield|intros _].
    apply tame_bind; [apply tame_lift|intros done].
    destruct (truthy done); apply tame_ret.
  - apply tame_bind; [apply tame_act|intros _; apply tame_ret].
Qed.

Lemma tame_aiter_lines failure ls : tame (aiter_lines json_loads failure ls).
Proof.
  induction ls as [|line ls IH]; cbn [aiter_lines].
  - apply tame_bind; [apply tame_await|intros _].
    destruct failure; [apply tame_raise|apply tame_ret].
  - apply tame_bind; [apply tame_await|intros _].
    apply tame_bind; [apply tame_act|intros _].
    destruct (blank line); [exact IH|].
    apply tame_bind; [apply tame_relay_line|intros [|]]; [exact IH|apply tame_ret].
Qed.

Lemma tame_event_stream u : tame (event_stream json_loads u).
Proof.
  apply tame_bind.
  - apply tame_async_with; [done|apply tame_act|intros _].
    apply tame_async_with; [done|apply tame_client_stream|intros resp].
    apply tame_bind; [apply tame_yield|intros _].
    apply tame_bind; [apply tame_sleep|intros _].
    apply tame_bind; [apply tame_act|intros _].
    apply tame_bind; [apply tame_yield|intros _].
    apply tame_bind; [apply tame_sleep|intros _].
    apply tame_aiter_lines.
  - intros _.
    apply tame_bind; [apply tame_yield|intros _].
    apply tame_bind; [apply tame_sleep|intros _].
    apply tame_yield.
Qed.

Lemma session_events_prefix code ls failure p :
  let r := event_stream json_loads (Accepted (Response code ls failure)) p in
  events r `prefix_of` full_events json_loads code ls
  /\ (outcome r = Ok tt -> events r = full_events json_loads code ls).
Proof.
  intros r.
  destruct (session_summary json_loads (Response code ls failure)) as (He & Ho & _).
  cbn [body_lines body_failure status_code] in *. cbn zeta in *.
  destruct (tame_event_stream (Accepted (Response code ls failure))) as [_ Hcut].
  specialize (Hcut p). fold r in Hcut.
  revert He Ho Hcut.
  generalize (event_stream json_loads (Accepted (Response code ls failure)) None).
  intros ideal He Ho Hcut.
  assert (events ideal `prefix_of` full_events json_loads code ls
          /\ (outcome ideal = Ok tt -> events ideal = full_events json_loads code ls))
    as [Hpre Hfull].
  { rewrite He, Ho. unfold full_events.
    destruct (ending _ _ _) as [[]|e]; split; try done.
    do 2 apply prefix_app. by exists [closing_event; close_event]. }
  destruct Hcut as [[He' Ho']|[Ho' He']].
  - by rewrite He', Ho'.
  - split; [by etrans|]. intros H. by rewrite H in Ho'.
Qed.

End Tame.

(* ------------------------------------------------------------------ *)
(** ** What a session can do, whatever the consumer does *)

Lemma emits_lift {A} Q (x : result A) : emits Q (lift x).
Proof. intros p. constructor. Qed.

Lemma emits_ret {A} Q (a : A) : emits Q (mret a : gen A).
Proof. intros p. constructor. Qed.

Lemma emits_raise {A} Q e : emits Q (raise e : gen A).
Proof. intros p. constructor. Qed.

Lemma emits_act (Q : action -> Prop) a : Q a -> emits Q (act a).
Proof. intros H p. by repeat constructor. Qed.

Lemma emits_await Q : emits Q await.
Proof. intros [[|n]|]; constructor. Qed.

Lemma emits_bind {A B} Q (m : gen A) (f : A -> gen B) :
  emits Q m -> (forall a, emits Q (f a)) -> emits Q (m ≫= f).
Proof.
  intros Hm Hf p. rewrite bind_run.
  destruct (outcome (m p)) as [a|e]; [|apply Hm].
  apply Forall_app. split; [apply Hm|apply Hf].
Qed.

Lemma emits_try_except {A} Q (body handler : gen A) catches :
  emits Q body -> emits Q handler -> emits Q (try_except body catches handler).
Proof.
  intros Hb Hh p. unfold try_except.
  destruct (outcome (body p)) as [a|e]; [apply Hb|].
  destruct (catches e); [|apply Hb].
  apply Forall_app. split; [apply Hb|apply Hh].
Qed.

Lemma emits_async_with {A B} Q (enter : gen A) leave (body : A -> gen B) :
  emits Q enter -> emits Q leave -> (forall x, emits Q (body x)) ->
  emits Q (async_with enter leave body).
Proof.
  intros He Hl Hb p. unfold async_with.
  destruct (outcome (enter p)) as [x|e]; [|apply He].
  repeat (apply Forall_app; split); [apply He|apply Hb|apply Hl].
Qed.

Lemma emits_yield (Q : action -> Prop) e : Q (Yield e) -> emits Q (yield_ e).
Proof. intros H. apply emits_bind; [by apply emits_act|intros _; apply emits_await]. Qed.

Lemma emits_sleep (Q : action -> Prop) ms : Q (Sleep ms) -> emits Q (sleep ms).
Proof. intros H. apply emits_bind; [by apply emits_act|intros _; apply emits_await]. Qed.

Section Emits.

Variable json_loads : string -> result json.
Variable Q : action -> Prop.

(** What the loop does: it takes lines, prints, sleeps for 0.3 s and
    yields [message] events. *)
Hypothesis loop_actions :
  forall a,
    (exists l, a = NextLine l) \/ (exists m, a = Prints m) \/ a = Sleep 300
    \/ (exists chunk, a = Yield (Event Message chunk)) ->
    Q a.

Lemma emits_relay_line line : emits Q (relay_line json_loads line).
Proof.
  apply emits_try_except.
  - apply emits_bind; [apply emits_lift|intros data].
    apply emits_bind; [apply emits_lift|intros chunk].
    apply emits_bind; [apply emits_act, loop_actions; eauto|intros _].
    apply emits_bind; [apply emits_sleep, loop_actions; eauto|intros _].
    apply emits_bind; [apply emits_yield, loop_actions; eauto 6|intros _].
    apply emits_bind; [apply emits_lift|intros done].
    destruct (truthy done); apply emits_ret.
  - apply emits_bind; [apply emits_act, loop_actions; eauto|intros _].
    apply emits_ret.
Qed.

Lemma emits_aiter_lines failure ls : emits Q (aiter_lines json_loads failure ls).
Proof.
  induction ls as [|line ls IH]; cbn [aiter_lines].
  - apply emits_bind; [apply emits_await|intros _].
    destruct failure; [apply emits_raise|apply emits_ret].
  - apply emits_bind; [apply emits_await|intros _].
    apply emits_bind; [apply emits_act, loop_actions; eauto|intros _].
    destruct (blank line); [exact IH|].
    apply emits_bind; [apply emits_relay_line|intros [|]];
      [exact IH|apply emits_ret].
Qed.

(** What the rest of the generator does. *)
Hypothesis frame_actions :
  forall code a, a ∈ preamble code ++ release ++ farewell -> Q a.

Local Ltac framed code :=
  apply (frame_actions code); unfold preamble, release, farewell; cbn [app];
  solve [repeat constructor].

Lemma emits_event_stream u : emits Q (event_stream json_loads u).
Proof.
  apply emits_bind; [|intros _].
  - apply emits_async_with; [apply emits_act; framed 0|apply emits_act; framed 0|].
    intros _.
    apply emits_async_with; [|apply emits_act; framed 0|intros resp].
    { apply emits_bind; [apply emits_act; framed 0|intros _].
      apply emits_bind; [apply emits_await|intros _].
      destruct u; [apply emits_raise|apply emits_ret]. }
    apply emits_bind; [apply emits_yield; framed 0|intros _].
    apply emits_bind; [apply emits_sleep; framed 0|intros _].
    apply emits_bind; [apply emits_act; framed (status_code resp)|intros _].
    apply emits_bind; [apply emits_yield; framed (status_code resp)|intros _].
    apply emits_bind; [apply emits_sleep; framed 0|intros _].
    apply emits_aiter_lines.
  - apply emits_bind; [apply emits_yield; framed 0|intros _].
    apply emits_bind; [apply emits_sleep; framed 0|intros _].
    apply emits_yield; framed 0.
Qed.

End Emits.

(** The only request a session sends is the fixed one. *)
Lemma session_requests (json_loads : string -> result json) u p req :
  Connect req ∈ trace (event_stream json_loads u p) -> req = ai_request.
Proof.
  intros H.
  pose (Q := fun a => forall r, a = Connect r -> r = ai_request).
  assert (emits Q (event_stream json_loads u)) as HQ.
  { apply emits_event_stream.
    - intros a [[l ->]|[[m ->]|[->|[chunk ->]]]] r; discriminate.
    - intros code a Ha r ->. unfold preamble, release, farewell in Ha.
      cbn [app] in Ha. rewrite !elem_of_cons, elem_of_nil in Ha.
      destruct Ha as [Ha|[Ha|Ha]]; [discriminate Ha|by injection Ha as <-|].
      repeat (destruct Ha as [Ha|Ha]; [discriminate Ha|]). done. }
  specialize (HQ p). rewrite Forall_forall in HQ. by apply (HQ _ H).
Qed.

(* ------------------------------------------------------------------ *)
(** ** The request is refused *)

Lemma event_stream_refused (json_loads : string -> result json) e p :
  let r := event_stream json_loads (Refused e) p in
  trace r = [ClientOpen; Connect ai_request; ClientClose]
  /\ outcome r = Raise (match p with Some O => CancelledError | _ => e end).
Proof. by destruct p as [[|n]|]. Qed.

(** C2 (as amended). When the request fails, whatever the exception, the
    generator yields no event at all: no [status] or [message] event
    describes the failure, no [close] event ends the stream, and no chunk
    is relayed. The client opened on line 22 is closed, no response was
    ever acquired, and the exception leaves the generator (or the
    cancellation does, when the consumer went away while connecting). *)
Theorem refused_session_is_silent (json_loads : string -> result json) e p :
  let r := event_stream json_loads (Refused e) p in
  trace r = [ClientOpen; Connect ai_request; ClientClose]
  /\ events r = []
  /\ outcome r = Raise (match p with Some O => CancelledError | _ => e end).
Proof.
  destruct (event_stream_refused json_loads e p) as [Ht Ho].
  cbn zeta in *. unfold events. by rewrite Ht, Ho.
Qed.

(** C2 (as stated) fails: after a connection error the generator has
    yielded nothing and the error has left it. *)
Lemma connect_error_not_reported :
  let r := event_stream Json.loads (Refused connect_error) None in
  events r = [] /\ outcome r = Raise connect_error /\ ~ failure_reported r.
Proof.
  destruct (event_stream_refused Json.loads connect_error None) as [Ht Ho].
  cbn zeta in *. unfold events. rewrite Ht.
  repeat split; [done..|]. intros [H _]. by rewrite Ho in H.
Qed.

(** C1 (as stated) fails on the same session: its event sequence is empty,
    so it does not end with a [close] event. *)
Lemma refused_session_never_closes :
  ~ closes_once (events (event_stream Json.loads (Refused connect_error) None)).
Proof.
  intros (pre & H & _).
  destruct (event_stream_refused Json.loads connect_error None) as [Ht _].
  cbn zeta in Ht. unfold events in H. rewrite Ht in H. by destruct pre.
Qed.

(* ------------------------------------------------------------------ *)
(** ** Lines that cannot be decoded *)

Section Malformed.

Variable json_loads : string -> result json.

Lemma dropped_among pre line ls failure :
  verdict_of json_loads line = Dropped ->
  relayed json_loads (pre ++ line :: ls) = relayed json_loads (pre ++ ls)
  /\ ending json_loads failure (pre ++ line :: ls)
     = ending json_loads failure (pre ++ ls).
Proof.
  intros H. induction pre as [|l pre [IHr IHe]]; cbn [app relayed ending].
  - by rewrite H.
  - by rewrite IHr, IHe.
Qed.

(** C3. A line that is not blank and on which [json.loads] raises
    [JSONDecodeError] is taken from the iterator once, the failure is
    printed, nothing is yielded for it, and the loop goes on with the lines
    after it: the iteration is the two actions [NextLine] and [Prints]
    followed by the loop on the remaining lines. Wherever such a line
    stands among the others, the session yields the same events and ends
    the same way as without it. *)
Theorem malformed_line_dropped failure code pre line ls p q :
  blank line = false ->
  json_loads line = Raise JSONDecodeError ->
  resumes p q ->
  aiter_lines json_loads failure (line :: ls) p
  = prepend [NextLine line; Prints (LogDecodeError line)]
            (aiter_lines json_loads failure ls q)
  /\ let r := event_stream json_loads
                (Accepted (Response code (pre ++ line :: ls) failure)) None in
     let r' := event_stream json_loads
                 (Accepted (Response code (pre ++ ls) failure)) None in
     events r = events r' /\ outcome r = outcome r'.
Proof.
  intros Hb H Hp. split.
  - rewrite (aiter_lines_step _ _ _ _ _ _ Hp), Hb, bind_run.
    rewrite (relay_line_dropped _ _ _ H); cbn [outcome trace rest].
    by rewrite prepend_prepend.
  - cbn zeta.
    destruct (session_summary json_loads (Response code (pre ++ line :: ls) failure))
      as (-> & -> & _).
    destruct (session_summary json_loads (Response code (pre ++ ls) failure))
      as (-> & -> & _).
    cbn [body_lines body_failure status_code].
    destruct (dropped_among pre line ls failure (verdict_dropped _ _ Hb H)) as [-> ->].
    done.
Qed.

End Malformed.

(** C3 at the line [not-json], between two lines that decode. *)
Lemma malformed_line_dropped_witness :
  let good := (Json.text "{'response':'A','done':false}") in
  aiter_lines Json.loads None ["not-json"; good]%string None
  = prepend [NextLine "not-json"; Prints (LogDecodeError "not-json")]
            (aiter_lines Json.loads None [good] None)
  /\ (events (event_stream Json.loads (answered 200 [good; "not-json"; good]%string) None)
      = events (event_stream Json.loads (answered 200 [good; good]) None)
      /\ outcome (event_stream Json.loads (answered 200 [good; "not-json"; good]%string) None)
         = outcome (event_stream Json.loads (answered 200 [good; good]) None)).
Proof.
  intros good.
  apply (malformed_line_dropped Json.loads None 200 [good] "not-json" [good] None None).
  - vm_compute; reflexivity.
  - vm_compute; reflexivity.
  - reflexivity.
Defined.

(** A line of opening brackets, at least as many as the recursion limit:
    whatever is on the stack when [json.loads] is called, the scanner
    runs out of levels before it comes to the end of the line. *)
Lemma times_length c n : String.length (Str.times (String c "") n) = n.
Proof. induction n as [|n IH]; simpl; [done|]. by f_equal. Qed.

Lemma value_nested max_digits f room r e :
  Json.value max_digits f room (String "[" r) = Raise e ->
  Json.value max_digits (S (S f)) (S room) (String "[" (String "[" r)) = Raise e.
Proof.
  intros H.
  transitivity (Json.elements max_digits (S f) room [] (String "[" r)); [reflexivity|].
  cbn [Json.elements]. by rewrite H.
Qed.

Lemma value_too_deep max_digits room :
  forall fuel n, (room < n)%nat -> (2 * room < fuel)%nat ->
  Json.value max_digits fuel room (Str.times "[" n) = Raise RecursionError.
Proof.
  induction room as [|room IH]; intros fuel n Hn Hf.
  - destruct n as [|n]; [lia|]. destruct fuel as [|fuel]; [lia|]. reflexivity.
  - destruct n as [|[|n]]; [lia..|].
    destruct fuel as [|[|fuel]]; [lia..|].
    apply (value_nested max_digits fuel room (Str.times "[" n)).
    apply (IH fuel (S n)); lia.
Qed.

Lemma loads_too_deep used n :
  (Json.recursion_limit <= n)%nat ->
  Json.loads_at used (Str.times "[" n) = Raise RecursionError.
Proof.
  intros Hn. unfold Json.loads_at.
  destruct (Json.recursion_limit - used <? 4)%nat eqn:Hu; [done|].
  apply Nat.ltb_ge in Hu. unfold Json.decode.
  assert (Json.skip_ws (Str.times "[" n) = Str.times "[" n) as ->.
  { destruct n; reflexivity. }
  rewrite value_too_deep; [done| |].
  - unfold Json.recursion_limit in *. lia.
  - rewrite times_length. unfold Json.recursion_limit in *. lia.
Qed.

(** C3 fails at a line of a thousand opening brackets, which is no JSON
    text. [json.loads] has no level of recursion left before it comes to
    the end of the line, whatever the number of levels in use when it is
    called, and raises [RecursionError], which the handler does not
    catch: the failure is not printed, the session is aborted after the
    first chunk, and the line after it is not taken. *)
Lemma deep_malformed_line_aborts :
  let deep := Str.times "[" 1000 in
  let good := Json.text "{'response':'A','done':false}" in
  let r := event_stream Json.loads (answered 200 [good; deep; good]) None in
  blank deep = false
  /\ Json.grammar deep = Raise JSONDecodeError
  /\ (forall used, Json.loads_at used deep = Raise RecursionError)
  /\ Json.loads deep = Raise RecursionError
  /\ outcome r = Raise RecursionError
  /\ trace r = preamble 200
               ++ [NextLine good; Prints (LogChunk (JStr "A")); Sleep 300;
                   Yield (Event Message (JStr "A")); NextLine deep]
               ++ release
  /\ events r = [start_event; status_event 200; Event Message (JStr "A")].
Proof.
  intros deep good r.
  split; [vm_compute; reflexivity|]. split; [vm_compute; reflexivity|].
  split; [intros used; apply loads_too_deep; unfold Json.recursion_limit; lia|].
  repeat apply conj; vm_compute; reflexivity.
Qed.

(* ------------------------------------------------------------------ *)
(** ** Lines that decode to an object *)

(** C10. A line that decodes to a JSON object without a ["response"] key
    is relayed like any other object: the iteration prints the chunk,
    sleeps, and yields a [message] event whose data is the empty string,
    the default of [data.get("response", "")]. Nothing is printed about a
    decoding failure, and the loop stops or goes on as ["done"] says. *)
Theorem missing_response_relays_empty
    (json_loads : string -> result json) failure line m ls p q q1 q2 :
  blank line = false ->
  json_loads line = Ok (JObj m) ->
  m !! "response" = None ->
  resumes p q -> resumes q q1 -> resumes q1 q2 ->
  aiter_lines json_loads failure (line :: ls) p
  = prepend [NextLine line; Prints (LogChunk (JStr "")); Sleep 300;
             Yield (Event Message (JStr ""))]
            (if truthy (default JNull (m !! "done"))
             then Run [] q2 (Ok tt)
             else aiter_lines json_loads failure ls q2).
Proof.
  intros Hb H Hm Hp Hq Hq1.
  rewrite (aiter_lines_step _ _ _ _ _ _ Hp), Hb, bind_run.
  rewrite (relay_line_object _ _ _ _ _ _ H Hq Hq1), Hm; cbn [outcome trace rest default].
  destruct (truthy _); by rewrite prepend_prepend.
Qed.

(** C10 at the line [{"done":false}]. *)
Lemma missing_response_relays_empty_witness :
  aiter_lines Json.loads None [(Json.text "{'done':false}")]%string None
  = prepend [NextLine (Json.text "{'done':false}"); Prints (LogChunk (JStr "")); Sleep 300;
             Yield (Event Message (JStr ""))]
            (aiter_lines Json.loads None [] None).
Proof.
  refine (missing_response_relays_empty Json.loads None (Json.text "{'done':false}")
            (<["done" := JBool false]> ∅) [] None None None None _ _ _ _ _ _).
  - vm_compute; reflexivity.
  - vm_compute; reflexivity.
  - reflexivity.
  - reflexivity.
  - reflexivity.
  - reflexivity.
Defined.

(** C10 fails at the line [{"n":11...1}] whose number has 4301 digits: a
    JSON object by the grammar, without a ["response"] key, but its number
    is an [int] literal of more digits than the interpreter converts.
    [json.loads] raises [ValueError], which the handler does not catch: no
    [message] event is yielded for the line, and the session is aborted. *)
Lemma long_integer_line_not_relayed :
  let line := Json.text "{'n':" +:+ Str.times "1" 4301 +:+ "}" in
  let r := event_stream Json.loads (answered 200 [line]) None in
  blank line = false
  /\ (exists m, Json.grammar line = Ok (JObj m) /\ m !! "response" = None)
  /\ Json.loads line = Raise ValueError
  /\ outcome r = Raise ValueError
  /\ trace r = preamble 200 ++ [NextLine line] ++ release
  /\ events r = [start_event; status_event 200].
Proof.
  intros line r. repeat apply conj; try (vm_compute; reflexivity).
  exists (<["n" := JInt ((10 ^ 4301 - 1) / 9)]> ∅).
  split; vm_compute; reflexivity.
Qed.

(* ------------------------------------------------------------------ *)
(** ** Lines that decode to something else *)

Section NotAnObject.

Variable json_loads : string -> result json.

Lemma aiter_lines_crash failure pre line post e :
  Forall (passes json_loads) pre ->
  verdict_of json_loads line = Failed e ->
  exists t,
    aiter_lines json_loads failure (pre ++ line :: post) None
    = Run (t ++ [NextLine line]) None (Raise e).
Proof.
  intros Hpre Hv. induction Hpre as [|l pre Hl _ [t IH]]; cbn [app].
  - exists []. by rewrite aiter_lines_cons, Hv.
  - rewrite aiter_lines_cons, IH.
    destruct (passes_verdict _ _ Hl) as [->|[->|[chunk ->]]];
      eexists; unfold prepend; cbn [trace rest outcome];
      by rewrite app_assoc.
Qed.

(** C8. A line that is not blank and decodes to a value that is not an
    object (a number, a string, a list, [null], a boolean) ends the session
    with an [AttributeError]: [data.get] fails, and only [JSONDecodeError]
    is caught. The lines before it are those the loop gets past. After the
    line is taken, the session does nothing but leave its two [async with]
    blocks: the closing message is not yielded, and no [close] event is
    among the events of the session. *)
Theorem non_object_line_aborts code failure pre line v post :
  Forall (passes json_loads) pre ->
  blank line = false ->
  json_loads line = Ok v ->
  (forall m, v <> JObj m) ->
  let r := event_stream json_loads
             (Accepted (Response code (pre ++ line :: post) failure)) None in
  outcome r = Raise AttributeError
  /\ (exists t, trace r = t ++ NextLine line :: release)
  /\ Forall (fun e => ev_kind e <> Close) (events r).
Proof.
  intros Hpre Hb H Hv r.
  destruct (aiter_lines_crash failure pre line post AttributeError Hpre
              (verdict_no_get _ _ _ Hb H Hv)) as [t Ht].
  assert (r = Run (preamble code ++ (t ++ [NextLine line]) ++ release) None
                  (Raise AttributeError)) as Hr.
  { subst r. rewrite event_stream_accepted.
    cbn [body_lines body_failure status_code]. by rewrite Ht. }
  split; [by rewrite Hr|]. split.
  - exists (preamble code ++ t). rewrite Hr; cbn [trace].
    by rewrite <- !app_assoc.
  - destruct (session_summary json_loads (Response code (pre ++ line :: post) failure))
      as (He & Ho & _).
    fold r in He, Ho. rewrite He, <- Ho, Hr; cbn [outcome].
    rewrite app_nil_r. repeat constructor; try done.
    apply Forall_fmap, Forall_true. done.
Qed.

End NotAnObject.

(** C8 at the line [5], after a line that is relayed. *)
Lemma non_object_line_aborts_witness :
  let r := event_stream Json.loads
             (answered 200 [(Json.text "{'response':'A'}"); "5"; (Json.text "{'done':true}")]%string)
             None in
  outcome r = Raise AttributeError
  /\ (exists t, trace r = t ++ NextLine "5" :: release)
  /\ Forall (fun e => ev_kind e <> Close) (events r).
Proof.
  apply (non_object_line_aborts Json.loads 200 None
           [(Json.text "{'response':'A'}")] "5" (JInt 5) [(Json.text "{'done':true}")]).
  - constructor; [|constructor].
    right; right. eexists. split; vm_compute; reflexivity.
  - vm_compute; reflexivity.
  - vm_compute; reflexivity.
  - discriminate.
Defined.

(* ------------------------------------------------------------------ *)
(** ** The sample of the specification *)

Lemma sample_verdicts failure :
  relayed Json.loads sample_lines = [JStr "A"; JStr "B"]
  /\ ending Json.loads failure sample_lines = Ok tt
  /\ consumed Json.loads sample_lines = take 3 sample_lines.
Proof. repeat split; vm_compute; reflexivity. Qed.

(** C5. On the four lines of property 3, whatever the status code and
    however the body would have ended, the [message] events between the
    opening two events and the closing two carry exactly ["A"] and ["B"]:
    the whole event sequence is start, status, ["A"], ["B"], closing
    message, [close]. The chunk of the [done] line is yielded before the
    loop stops, and only the first three lines are taken from the
    iterator. *)
Theorem sample_session code failure :
  let r := event_stream Json.loads
             (Accepted (Response code sample_lines failure)) None in
  ev_data <$> fragments (events r) = [JStr "A"; JStr "B"]
  /\ events r = [start_event; status_event code;
                 Event Message (JStr "A"); Event Message (JStr "B");
                 closing_event; close_event]
  /\ next_lines (trace r) = take 3 sample_lines
  /\ outcome r = Ok tt.
Proof.
  destruct (session_summary Json.loads (Response code sample_lines failure))
    as (He & Ho & Hn).
  cbn [body_lines body_failure status_code] in *. cbn zeta in *.
  destruct (sample_verdicts failure) as (Hr & Hd & Hc).
  rewrite Hr, Hd in He. rewrite Hd in Ho. rewrite Hc in Hn.
  rewrite He. by repeat split.
Qed.

(* ------------------------------------------------------------------ *)
(** ** The start of a session *)

Lemma bind_yield_trace {B} e (k : unit -> gen B) p :
  exists t, trace ((yield_ e ≫= k) p) = Yield e :: t.
Proof.
  destruct (await_cases p) as [[q H]| ->].
  - rewrite (bind_yield _ _ _ _ H). by eexists.
  - by eexists.
Qed.

(** C6 (as amended). In a session whose request is answered and whose
    consumer stays for the first two events, the request is sent first:
    the generator enters the client and [client.stream], and only then
    yields the stream-start message, which is the first event. It then
    sleeps, prints the status code and yields the [status] event that
    carries the status code, which is the second event. *)
Theorem session_opening (json_loads : string -> result json) resp p :
  stays_for 3 p ->
  let r := event_stream json_loads (Accepted resp) p in
  (exists t, trace r = [ClientOpen; Connect ai_request; Yield start_event;
                        Sleep 1000; Prints (LogStatus (status_code resp));
                        Yield (status_event (status_code resp))] ++ t)
  /\ (exists evs, events r = start_event :: status_event (status_code resp) :: evs).
Proof.
  intros Hp r.
  assert (exists q1 q2 q3, resumes p q1 /\ resumes q1 q2 /\ resumes q2 q3)
    as (q1 & q2 & q3 & H1 & H2 & H3).
  { destruct p as [[|[|[|n]]]|]; cbn in Hp; try lia.
    - by exists (Some (S (S n))), (Some (S n)), (Some n).
    - by exists None, None, None. }
  assert (exists t, trace r = [ClientOpen; Connect ai_request; Yield start_event;
                               Sleep 1000; Prints (LogStatus (status_code resp));
                               Yield (status_event (status_code resp))] ++ t)
    as [t Ht].
  { subst r. unfold event_stream.
    rewrite bind_run, async_with_acts.
    rewrite (async_with_entered _ _ _ _ _ _ _ (client_stream_accepted _ _ _ _ H1)).
    rewrite (bind_yield _ _ _ _ H2), (bind_sleep _ _ _ _ H3), bind_act.
    match goal with
    | |- context [(yield_ ?e ≫= ?k) ?q] =>
        destruct (bind_yield_trace e k q) as [t Ht];
        destruct ((yield_ e ≫= k) q) as [t' q' o]
    end.
    cbn in Ht; subst t'.
    destruct o; cbn; eexists; reflexivity. }
  split; [by exists t|].
  unfold events. rewrite Ht. by eexists.
Qed.

(** C6 at a session with an empty body and a consumer that stays. *)
Lemma session_opening_witness :
  let r := event_stream Json.loads (answered 200 []) None in
  (exists t, trace r = [ClientOpen; Connect ai_request; Yield start_event;
                        Sleep 1000; Prints (LogStatus 200);
                        Yield (status_event 200)] ++ t)
  /\ (exists evs, events r = start_event :: status_event 200 :: evs).
Proof. apply (session_opening Json.loads (Response 200 [] None) None). exact I. Defined.

(** C6 (as stated) fails: in the trace of a session the request is the
    second action and the stream-start event the third, and no request is
    sent after an event. *)
Lemma start_event_follows_connect :
  let t := trace (event_stream Json.loads (answered 200 []) None) in
  t !! 1%nat = Some (Connect ai_request)
  /\ t !! 2%nat = Some (Yield start_event)
  /\ ~ start_precedes_connect t.
Proof.
  cbn zeta. unfold answered. rewrite event_stream_accepted. cbn.
  repeat split; try done.
  intros (i & j & r & Hi & Hj & Hlt).
  destruct j as [|[|j]].
  - discriminate Hj.
  - destruct i as [|i]; [discriminate Hi|lia].
  - do 10 (destruct j as [|j]; [discriminate Hj|]). discriminate Hj.
Qed.

(* ------------------------------------------------------------------ *)
(** ** The status code *)

Lemma alike_refl {A} (r : run A) : alike r r.
Proof. split; [|done]. apply Forall_Forall2_diag, Forall_true. constructor. Qed.

Lemma alike_prepend {A} t t' (r r' : run A) :
  Forall2 same_but_status t t' -> alike r r' -> alike (prepend t r) (prepend t' r').
Proof. intros Ht (H & ? & ?). split; [|done]. by apply Forall2_app. Qed.

Lemma alike_followed_by {A} (r r' : run A) t :
  alike r r' -> alike (followed_by r t) (followed_by r' t).
Proof.
  intros (H & ? & ?). split; [|done].
  apply Forall2_app; [done|]. apply Forall_Forall2_diag, Forall_true. constructor.
Qed.

Lemma alike_bind {A B} (m m' : gen A) (f f' : A -> gen B) p :
  alike (m p) (m' p) -> (forall a q, alike (f a q) (f' a q)) ->
  alike ((m ≫= f) p) ((m' ≫= f') p).
Proof.
  intros (Ht & Hr & Ho) Hf. rewrite !bind_run, <- Ho, <- Hr.
  destruct (outcome (m p)) as [a|e]; [|done].
  by apply alike_prepend.
Qed.

Lemma alike_yield e e' p :
  same_but_status (Yield e) (Yield e') -> alike (yield_ e p) (yield_ e' p).
Proof. intros H. destruct p as [[|n]|]; repeat split; by repeat constructor. Qed.

Lemma alike_act a a' p : same_but_status a a' -> alike (act a p) (act a' p).
Proof. intros H. repeat split. by repeat constructor. Qed.

Lemma string_app_list a b :
  list_ascii_of_string (a +:+ b) = list_ascii_of_string a ++ list_ascii_of_string b.
Proof. induction a as [|c a IH]; simpl; [done|]. by f_equal. Qed.

Lemma string_app_inv_tail a b t : a +:+ t = b +:+ t -> a = b.
Proof.
  intros H. apply (f_equal list_ascii_of_string) in H.
  rewrite !string_app_list in H. apply app_inv_tail in H.
  rewrite <- (string_of_list_ascii_of_string a), <- (string_of_list_ascii_of_string b).
  by rewrite H.
Qed.

Lemma status_event_inj code code' : status_event code = status_event code' -> code = code'.
Proof.
  unfold status_event. intros H. injection H as H.
  apply String.app_inj, string_app_inv_tail in H.
  by apply (inj pretty) in H.
Qed.

(** C7. The status code, success or not, is reported and is used for
    nothing else. For a consumer that stays and any status code, the
    second event of the session is the [status] event whose data is
    ["HTTP Status Code: "], the code in decimal and ["<br>"], from which
    the code can be read back. The body is then consumed as the lines
    alone say: the events that follow are one [message] event for each
    chunk the loop relays, and the closing message and [close] unless an
    exception leaves the loop; the outcome is the way the loop ends; the
    lines taken are those the loop consumes. None of the three depends on
    the code: what the session does after its first seven actions, and how
    it ends, is the same for every code. Whatever the consumer does, two
    sessions that differ in the status code only do the same actions one
    by one, each printing and reporting its own code, and end the same
    way. *)
Theorem status_code_not_a_stop (json_loads : string -> result json) code ls failure :
  let r := event_stream json_loads (Accepted (Response code ls failure)) None in
  events r
  = [start_event;
     Event Status (JStr ("HTTP Status Code: " +:+ pretty code +:+ "<br>"))]
    ++ (Event Message <$> relayed json_loads ls)
    ++ match ending json_loads failure ls with
       | Ok _ => [closing_event; close_event]
       | Raise _ => []
       end
  /\ (forall code', status_event code = status_event code' -> code = code')
  /\ outcome r = ending json_loads failure ls
  /\ next_lines (trace r) = consumed json_loads ls
  /\ (exists t out, forall code',
        event_stream json_loads (Accepted (Response code' ls failure)) None
        = Run (preamble code' ++ t) None out)
  /\ (forall code' p,
        alike (event_stream json_loads (Accepted (Response code ls failure)) p)
              (event_stream json_loads (Accepted (Response code' ls failure)) p)).
Proof.
  intros r.
  destruct (session_summary json_loads (Response code ls failure)) as (He & Ho & Hn).
  cbn [body_lines body_failure status_code] in He, Ho, Hn. cbn zeta in He, Ho, Hn.
  fold r in He, Ho, Hn.
  split; [exact He|]. split; [apply status_event_inj|].
  split; [exact Ho|]. split; [exact Hn|]. split.
  - destruct (outcome (aiter_lines json_loads failure ls None)) as [[]|e] eqn:Hl.
    + eexists _, _. intros code'.
      rewrite event_stream_accepted; cbn [body_lines body_failure status_code].
      rewrite Hl. reflexivity.
    + eexists _, _. intros code'.
      rewrite event_stream_accepted; cbn [body_lines body_failure status_code].
      rewrite Hl. reflexivity.
  - intros code' p. unfold event_stream.
    apply alike_bind; [|intros; apply alike_refl].
    rewrite !async_with_acts.
    apply alike_prepend; [repeat constructor|]. apply alike_followed_by.
    destruct (await_cases p) as [[q Hq]| ->]; [|apply alike_refl].
    rewrite !(async_with_entered _ _ _ _ _ _ _ (client_stream_accepted _ _ _ _ Hq)).
    apply alike_prepend; [repeat constructor|]. apply alike_followed_by.
    cbn [status_code body_lines body_failure].
    apply alike_bind; [apply alike_refl|intros _ q1].
    apply alike_bind; [apply alike_refl|intros _ q2].
    apply alike_bind; [apply alike_act; constructor|intros _ q3].
    apply alike_bind; [apply alike_yield; constructor|intros _ q4].
    apply alike_refl.
Qed.

(** C7 at the status code 500 and the four lines of the specification:
    the code is reported, and the two chunks, the closing message and the
    [close] event follow as they do after a 200. *)
Lemma status_code_not_a_stop_witness :
  events (event_stream Json.loads (answered 500 sample_lines) None)
  = [start_event; Event Status (JStr "HTTP Status Code: 500<br>");
     Event Message (JStr "A"); Event Message (JStr "B");
     closing_event; close_event].
Proof.
  unfold answered.
  rewrite (proj1 (status_code_not_a_stop Json.loads 500 sample_lines None)).
  vm_compute. reflexivity.
Defined.

(* ------------------------------------------------------------------ *)
(** ** Sessions that run to their end *)

Section Complete.

Variable json_loads : string -> result json.

Lemma relayed_count failure ls :
  ending json_loads failure ls = Ok tt ->
  length (relayed json_loads ls) = valid_upto_done json_loads ls.
Proof.
  induction ls as [|line ls IH]; [done|].
  cbn [ending relayed valid_upto_done]. unfold verdict_of.
  destruct (blank line); [done|].
  destruct (json_loads line) as [v|e].
  - destruct v as [| | | | | |m]; try done.
    cbn [done_flag length]. destruct (truthy _); [done|].
    intros H. by rewrite IH.
  - by destruct (is_JSONDecodeError e).
Qed.

(** C4 (as amended). In a session that runs to its end (the request is
    answered, the consumer stays and no exception leaves the loop, so every
    line decoded before the loop stops is a JSON object), the events
    between the opening two and the closing two are [message] events, and
    there are exactly as many of them as there are lines that are not
    blank and decode, up to and including the first one whose ["done"]
    tests true. Blank and undecodable lines count for nothing. *)
Theorem fragment_count resp p :
  let r := event_stream json_loads (Accepted resp) p in
  outcome r = Ok tt ->
  length (fragments (events r)) = valid_upto_done json_loads (body_lines resp)
  /\ Forall (fun e => ev_kind e = Message) (fragments (events r)).
Proof.
  intros r Ho.
  destruct (session_summary json_loads resp) as (He & Ho' & _).
  destruct (tame_event_stream json_loads (Accepted resp)) as [_ Hcut].
  destruct (Hcut p) as [[He1 Ho1]|[Ho1 _]]; fold r in Ho1;
    [fold r in He1|by rewrite Ho in Ho1].
  rewrite Ho in Ho1. rewrite He1, He, <- Ho', <- Ho1.
  rewrite fragments_framed. split.
  - rewrite length_fmap. apply (relayed_count (body_failure resp)).
    by rewrite <- Ho'.
  - apply Forall_fmap, Forall_true. done.
Qed.

(** C1 (as amended). In a session whose request is answered, whose body
    ends without a transport error, whose lines are each blank,
    undecodable or a JSON object, and whose consumer stays, the generator
    returns, and its events end with the [close] event, the only event of
    that kind. This covers the end of the body, the stop at ["done"], and
    bodies of undecodable lines only. *)
Theorem close_event_terminal code ls :
  Forall (harmless json_loads) ls ->
  let r := event_stream json_loads (answered code ls) None in
  outcome r = Ok tt /\ closes_once (events r).
Proof.
  intros Hls r.
  destruct (session_summary json_loads (Response code ls None)) as (He & Ho & _).
  cbn [body_lines body_failure status_code] in *. cbn zeta in *.
  rewrite (harmless_ending _ _ Hls) in He, Ho.
  split; [exact Ho|]. subst r. unfold answered. rewrite He.
  exists ([start_event; status_event code]
          ++ (Event Message <$> relayed json_loads ls) ++ [closing_event]).
  split; [by rewrite <- !app_assoc|].
  repeat (apply Forall_app; split); repeat constructor; try done.
  apply Forall_fmap, Forall_true. done.
Qed.

End Complete.

Lemma sample_lines_harmless : Forall (harmless Json.loads) sample_lines.
Proof.
  unfold sample_lines.
  constructor; [|constructor; [|constructor; [|constructor; [|constructor]]]].
  - right; right. eexists. vm_compute; reflexivity.
  - right; left. vm_compute; reflexivity.
  - right; right. eexists. vm_compute; reflexivity.
  - right; right. eexists. vm_compute; reflexivity.
Defined.

(** C1 on the sample of the specification. *)
Lemma close_event_terminal_witness :
  let r := event_stream Json.loads (answered 200 sample_lines) None in
  outcome r = Ok tt /\ closes_once (events r).
Proof. apply (close_event_terminal Json.loads 200 sample_lines sample_lines_harmless). Defined.

(** C4 on the sample of the specification. *)
Lemma fragment_count_witness :
  let r := event_stream Json.loads (answered 200 sample_lines) None in
  length (fragments (events r)) = valid_upto_done Json.loads sample_lines
  /\ Forall (fun e => ev_kind e = Message) (fragments (events r)).
Proof.
  apply (fragment_count Json.loads (Response 200 sample_lines None) None).
  vm_compute; reflexivity.
Defined.

(** C4 (as stated) fails: the line [5] is valid JSON and is not blank, and
    so is the object after it, yet the session yields its two opening
    events and nothing else. *)
Lemma non_object_line_breaks_count :
  let ls := ["5"; (Json.text "{'response':'A','done':true}")]%string in
  let r := event_stream Json.loads (answered 200 ls) None in
  events r = [start_event; status_event 200]
  /\ valid_upto_done Json.loads ls = 2%nat
  /\ length (fragments (events r)) <> valid_upto_done Json.loads ls.
Proof.
  intros ls r. subst r. unfold answered.
  destruct (session_summary Json.loads (Response 200 ls None)) as (He & _ & _).
  cbn [body_lines body_failure status_code] in He. cbn zeta in He.
  assert (relayed Json.loads ls = []) as Hr by (vm_compute; reflexivity).
  assert (ending Json.loads None ls = Raise AttributeError) as Hd
    by (vm_compute; reflexivity).
  assert (valid_upto_done Json.loads ls = 2%nat) as Hn by (vm_compute; reflexivity).
  rewrite Hr, Hd in He. cbn in He. rewrite He, Hn. by repeat split.
Qed.

(* ------------------------------------------------------------------ *)
(** ** The [close] event, whatever happens *)

Lemma prefix_close_only_last (l pre0 : list event) c :
  Forall (fun e => ev_kind e <> Close) pre0 ->
  l `prefix_of` pre0 ++ [c] ->
  close_only_last l.
Proof.
  intros Hpre0 [k Hk] pre e post -> He.
  revert pre Hk. induction Hpre0 as [|x pre0 Hx _ IH]; intros pre Hk.
  - destruct pre as [|y pre]; cbn in Hk.
    + injection Hk as _ Hk. symmetry in Hk.
      apply app_eq_nil in Hk as [-> _]. by split.
    + injection Hk as _ Hk. by destruct pre.
  - destruct pre as [|y pre]; cbn in Hk.
    + injection Hk as <- _. by destruct Hx.
    + injection Hk as <- Hk. destruct (IH pre Hk) as [-> H].
      split; [done|]. by constructor.
Qed.

(** Whatever the upstream does and whenever the consumer leaves, a session
    yields at most one [close] event, and nothing after it. *)
Theorem close_never_followed (json_loads : string -> result json) u p :
  close_only_last (events (event_stream json_loads u p)).
Proof.
  destruct u as [e|[code ls failure]].
  - destruct (event_stream_refused json_loads e p) as [Ht _].
    cbn zeta in Ht. unfold events. rewrite Ht.
    intros pre x post H. by destruct pre.
  - destruct (session_events_prefix json_loads code ls failure p) as [H _].
    eapply (prefix_close_only_last _
              ([start_event; status_event code]
               ++ (Event Message <$> relayed json_loads ls) ++ [closing_event])
              close_event).
    + repeat (apply Forall_app; split); repeat constructor; try done.
      apply Forall_fmap, Forall_true. done.
    + unfold full_events in H. by rewrite <- !app_assoc.
Qed.

(** For a consumer that stays, a session ends with the [close] event
    exactly when the generator returns. *)
Theorem closes_iff_returns (json_loads : string -> result json) resp :
  let r := event_stream json_loads (Accepted resp) None in
  closes_once (events r) <-> outcome r = Ok tt.
Proof.
  intros r.
  destruct (session_summary json_loads resp) as (He & Ho & _). fold r in He, Ho.
  rewrite He, Ho. destruct (ending _ _ _) as [[]|e]; split; try done.
  - intros _.
    exists ([start_event; status_event (status_code resp)]
            ++ (Event Message <$> relayed json_loads (body_lines resp))
            ++ [closing_event]).
    split; [by rewrite <- !app_assoc|].
    repeat (apply Forall_app; split); repeat constructor; try done.
    apply Forall_fmap, Forall_true. done.
  - intros (pre & H & Hpre). exfalso.
    rewrite app_nil_r in H.
    assert (Forall (fun e => ev_kind e <> Close)
              ([start_event; status_event (status_code resp)]
               ++ (Event Message <$> relayed json_loads (body_lines resp)))) as HF.
    { apply Forall_app; split; repeat constructor; try done.
      apply Forall_fmap, Forall_true. done. }
    rewrite H in HF. apply Forall_app in HF as [_ HF].
    apply Forall_cons in HF as [HF _]. by apply HF.
Qed.

(* ------------------------------------------------------------------ *)
(** * Further properties of [event_stream] *)

(** ** Blank lines *)

Section Blank.

Variable json_loads : string -> result json.

Lemma skipped_among pre line ls failure :
  verdict_of json_loads line = Skipped ->
  relayed json_loads (pre ++ line :: ls) = relayed json_loads (pre ++ ls)
  /\ ending json_loads failure (pre ++ line :: ls)
     = ending json_loads failure (pre ++ ls).
Proof.
  intros H. induction pre as [|l pre [IHr IHe]]; cbn [app relayed ending].
  - by rewrite H.
  - by rewrite IHr, IHe.
Qed.

(** A line that [strip] leaves empty is taken from the iterator and
    nothing else happens for it (lines 39-40): it is not decoded, so
    whatever [json.loads] would have done with it, nothing is printed,
    nothing is yielded, there is no pause, and the loop goes on with the
    next line. Wherever such a line stands, the session yields the same
    events and ends the same way as without it. *)
Theorem blank_line_skipped failure code pre line ls p q :
  blank line = true ->
  resumes p q ->
  aiter_lines json_loads failure (line :: ls) p
  = prepend [NextLine line] (aiter_lines json_loads failure ls q)
  /\ let r := event_stream json_loads
                (Accepted (Response code (pre ++ line :: ls) failure)) None in
     let r' := event_stream json_loads
                 (Accepted (Response code (pre ++ ls) failure)) None in
     events r = events r' /\ outcome r = outcome r'.
Proof.
  intros Hb Hp. split.
  - by rewrite (aiter_lines_step _ _ _ _ _ _ Hp), Hb.
  - cbn zeta.
    destruct (session_summary json_loads (Response code (pre ++ line :: ls) failure))
      as (-> & -> & _).
    destruct (session_summary json_loads (Response code (pre ++ ls) failure))
      as (-> & -> & _).
    cbn [body_lines body_failure status_code].
    destruct (skipped_among pre line ls failure (verdict_blank _ _ Hb)) as [-> ->].
    done.
Qed.

End Blank.

(** A line of spaces is skipped by a decoder that would fail on it with
    something other than a decoding error. *)
Lemma blank_line_skipped_witness :
  let faulty := fun _ : string => Raise RecursionError : result json in
  aiter_lines faulty None ["   "; "x"]%string None
  = prepend [NextLine "   "] (aiter_lines faulty None ["x"]%string None)
  /\ (events (event_stream faulty (answered 200 ["   "; "x"]%string) None)
      = events (event_stream faulty (answered 200 ["x"]%string) None)
      /\ outcome (event_stream faulty (answered 200 ["   "; "x"]%string) None)
         = outcome (event_stream faulty (answered 200 ["x"]%string) None)).
Proof.
  intros faulty.
  apply (blank_line_skipped faulty None 200 [] "   " ["x"]%string None None).
  - vm_compute; reflexivity.
  - reflexivity.
Defined.

(* ------------------------------------------------------------------ *)
(** ** What is relayed *)

(** A line that decodes to an object with a ["response"] key is relayed
    with exactly the value of that key, whatever its type: the default
    [""] of [data.get("response", "")] stands in for a missing key only,
    so an explicit [null] is yielded as [None], and a number, a list or an
    object as itself, without conversion to a string. *)
Theorem present_response_relayed_verbatim
    (json_loads : string -> result json) failure line m v ls p q q1 q2 :
  blank line = false ->
  json_loads line = Ok (JObj m) ->
  m !! "response" = Some v ->
  resumes p q -> resumes q q1 -> resumes q1 q2 ->
  aiter_lines json_loads failure (line :: ls) p
  = prepend [NextLine line; Prints (LogChunk v); Sleep 300;
             Yield (Event Message v)]
            (if truthy (default JNull (m !! "done"))
             then Run [] q2 (Ok tt)
             else aiter_lines json_loads failure ls q2).
Proof.
  intros Hb H Hm Hp Hq Hq1.
  rewrite (aiter_lines_step _ _ _ _ _ _ Hp), Hb, bind_run.
  rewrite (relay_line_object _ _ _ _ _ _ H Hq Hq1), Hm; cbn [outcome trace rest default].
  destruct (truthy _); by rewrite prepend_prepend.
Qed.

(** The line [{"response":null}] is relayed as [None]. *)
Lemma present_response_relayed_verbatim_witness :
  aiter_lines Json.loads None [Json.text "{'response':null}"] None
  = prepend [NextLine (Json.text "{'response':null}"); Prints (LogChunk JNull);
             Sleep 300; Yield (Event Message JNull)]
            (aiter_lines Json.loads None [] None).
Proof.
  refine (present_response_relayed_verbatim Json.loads None
            (Json.text "{'response':null}") (<["response" := JNull]> ∅) JNull
            [] None None None None _ _ _ _ _ _).
  - vm_compute; reflexivity.
  - vm_compute; reflexivity.
  - reflexivity.
  - reflexivity.
  - reflexivity.
  - reflexivity.
Defined.

Lemma slept_app t1 t2 : slept (t1 ++ t2) = slept t1 + slept t2.
Proof.
  induction t1 as [|a t1 IH]; [done|]. cbn [app slept foldr].
  fold (slept (t1 ++ t2)) (slept t1). destruct a; lia.
Qed.

Section Reads.

Variable json_loads : string -> result json.

Lemma passes_ending ls :
  Forall (passes json_loads) ls -> ending json_loads None ls = Ok tt.
Proof.
  induction 1 as [|line ls H _ IH]; [done|]. cbn [ending].
  by destruct (passes_verdict _ _ H) as [->|[->|[chunk ->]]].
Qed.

Lemma passes_app ls1 ls2 failure :
  Forall (passes json_loads) ls1 ->
  relayed json_loads (ls1 ++ ls2) = relayed json_loads ls1 ++ relayed json_loads ls2
  /\ ending json_loads failure (ls1 ++ ls2) = ending json_loads failure ls2
  /\ consumed json_loads (ls1 ++ ls2) = ls1 ++ consumed json_loads ls2.
Proof.
  induction 1 as [|line ls H _ (IHr & IHe & IHc)]; [done|].
  cbn [app relayed ending consumed].
  destruct (passes_verdict _ _ H) as [->|[->|[chunk ->]]];
    by rewrite IHr, IHe, IHc.
Qed.

(** The loop over lines it gets past does the same whatever the end of
    the body is, up to how it ends. *)
Lemma aiter_lines_passes ls :
  Forall (passes json_loads) ls ->
  exists t, forall failure,
    aiter_lines json_loads failure ls None
    = Run t None (match failure with None => Ok tt | Some e => Raise e end).
Proof.
  induction 1 as [|line ls H _ [t IH]].
  - exists []. intros failure. apply aiter_lines_nil.
  - destruct (passes_verdict _ _ H) as [Hv|[Hv|[chunk Hv]]].
    + exists ([NextLine line] ++ t). intros failure.
      by rewrite aiter_lines_cons, Hv, IH.
    + exists ([NextLine line; Prints (LogDecodeError line)] ++ t). intros failure.
      by rewrite aiter_lines_cons, Hv, IH.
    + exists ([NextLine line; Prints (LogChunk chunk); Sleep 300;
               Yield (Event Message chunk)] ++ t).
      intros failure. by rewrite aiter_lines_cons, Hv, IH.
Qed.

(** The loop up to a line that says [done]. *)
Lemma aiter_lines_done pre line m post failure :
  Forall (passes json_loads) pre ->
  blank line = false ->
  json_loads line = Ok (JObj m) ->
  truthy (default JNull (m !! "done")) = true ->
  aiter_lines json_loads failure (pre ++ line :: post) None
  = aiter_lines json_loads None (pre ++ [line]) None.
Proof.
  intros Hpre Hb H Hd. induction Hpre as [|l pre Hl _ IH]; cbn [app].
  - by rewrite !aiter_lines_cons, (verdict_object _ _ _ Hb H), Hd.
  - rewrite !aiter_lines_cons, IH.
    by destruct (passes_verdict _ _ Hl) as [->|[->|[chunk ->]]].
Qed.

(** Once a decoded object has a ["done"] that tests true, the session is
    over, whatever follows: the lines after it are never taken from the
    iterator, so neither a line that would have raised nor a transport
    error at the end of the body can stop the session from running to its
    end. The run is the run on the body cut after that line. *)
Theorem done_ends_the_reading code pre line m post failure :
  Forall (passes json_loads) pre ->
  blank line = false ->
  json_loads line = Ok (JObj m) ->
  truthy (default JNull (m !! "done")) = true ->
  let r := event_stream json_loads
             (Accepted (Response code (pre ++ line :: post) failure)) None in
  r = event_stream json_loads (answered code (pre ++ [line])) None
  /\ outcome r = Ok tt
  /\ next_lines (trace r) = pre ++ [line].
Proof.
  intros Hpre Hb H Hd r.
  assert (r = event_stream json_loads (answered code (pre ++ [line])) None) as Hr.
  { subst r. unfold answered. rewrite !event_stream_accepted.
    cbn [body_lines body_failure status_code].
    by rewrite (aiter_lines_done pre line m post failure Hpre Hb H Hd). }
  split; [exact Hr|].
  destruct (session_summary json_loads (Response code (pre ++ [line]) None))
    as (_ & Ho & Hn).
  cbn [body_lines body_failure status_code] in *. cbn zeta in *.
  unfold answered in Hr. rewrite <- Hr in Ho, Hn.
  destruct (passes_app pre [line] None Hpre) as (_ & He & Hc).
  rewrite Ho, Hn, He, Hc. cbn [ending consumed].
  by rewrite (verdict_object _ _ _ Hb H), Hd.
Qed.

(** A transport error after the last line of a body whose lines the loop
    gets past: the session does everything the session on the same body
    with a clean end does, chunk by chunk, releases the response and the
    client, and then lets the error out instead of yielding the closing
    message and the [close] event. *)
Theorem read_failure_skips_farewell code ls e :
  Forall (passes json_loads) ls ->
  let r := event_stream json_loads (Accepted (Response code ls (Some e))) None in
  let r0 := event_stream json_loads (answered code ls) None in
  outcome r = Raise e
  /\ outcome r0 = Ok tt
  /\ trace r0 = trace r ++ farewell
  /\ exists t, trace r = t ++ release.
Proof.
  intros Hls. destruct (aiter_lines_passes ls Hls) as [t Ht].
  cbn zeta. unfold answered. rewrite !event_stream_accepted.
  cbn [body_lines body_failure status_code]. rewrite !Ht. cbn [outcome trace].
  repeat split.
  - by rewrite <- !app_assoc.
  - exists (preamble code ++ t). by rewrite <- !app_assoc.
Qed.

(** A body cut between two lines: when the loop gets past every line of
    the first part, the session on the whole body relays the chunks of
    the first part and then does what the session on the second part
    does. *)
Theorem body_splits_between_lines code ls1 ls2 failure :
  Forall (passes json_loads) ls1 ->
  let r := event_stream json_loads
             (Accepted (Response code (ls1 ++ ls2) failure)) None in
  let r1 := event_stream json_loads (answered code ls1) None in
  let r2 := event_stream json_loads (Accepted (Response code ls2 failure)) None in
  drop 2 (events r) = fragments (events r1) ++ drop 2 (events r2)
  /\ outcome r = outcome r2.
Proof.
  intros Hls. cbn zeta. unfold answered.
  destruct (session_summary json_loads (Response code (ls1 ++ ls2) failure))
    as (-> & -> & _).
  destruct (session_summary json_loads (Response code ls1 None)) as (-> & _ & _).
  destruct (session_summary json_loads (Response code ls2 failure)) as (-> & -> & _).
  cbn [body_lines body_failure status_code].
  destruct (passes_app ls1 ls2 failure Hls) as (-> & -> & _).
  rewrite (passes_ending ls1 Hls), fragments_framed.
  cbn [app drop]. by rewrite fmap_app, <- app_assoc.
Qed.

(** One [message] event for each line, in the order of the lines: when
    every line decodes to an object whose ["done"] does not test true, the
    events of the session are the two opening events, then for each line
    one [message] event with the value of its ["response"] (or [""]), then
    the closing message and the [close] event. *)
Theorem chunks_relayed_in_order code ls ms :
  Forall2 (fun line m =>
             blank line = false
             /\ json_loads line = Ok (JObj m)
             /\ truthy (default JNull (m !! "done")) = false) ls ms ->
  let r := event_stream json_loads (answered code ls) None in
  events r = script code (chunk_of <$> ms) /\ outcome r = Ok tt.
Proof.
  intros H. cbn zeta. unfold answered.
  destruct (session_summary json_loads (Response code ls None)) as (-> & -> & _).
  cbn [body_lines body_failure status_code].
  assert (relayed json_loads ls = chunk_of <$> ms
          /\ ending json_loads None ls = Ok tt) as [-> ->]; [|done].
  induction H as [|line m ls ms (Hb & Hl & Hd) _ [IHr IHe]]; [done|].
  cbn [relayed ending fmap list_fmap].
  by rewrite (verdict_object _ _ _ Hb Hl), Hd, IHr, IHe.
Qed.

Lemma aiter_lines_slept failure ls :
  slept (trace (aiter_lines json_loads failure ls None))
  = 300 * Z.of_nat (length (relayed json_loads ls)).
Proof.
  induction ls as [|line ls IH]; [by rewrite aiter_lines_nil|].
  rewrite aiter_lines_cons. cbn [relayed].
  destruct (verdict_of json_loads line) as [| |chunk [|]|e];
    unfold prepend; cbn [trace]; rewrite ?slept_app, ?IH;
    cbn [slept foldr length]; lia.
Qed.

End Reads.

Lemma sample_pre_passes :
  Forall (passes Json.loads) (take 2 sample_lines).
Proof.
  constructor; [|constructor; [|constructor]].
  - right; right. eexists. split; vm_compute; reflexivity.
  - right; left. vm_compute; reflexivity.
Defined.

(** The sample of the specification, read as two lines the loop gets
    past, the line that says [done], and a line after it; here the body
    would also have ended with a read error. *)
Lemma done_ends_the_reading_witness :
  let r := event_stream Json.loads
             (Accepted (Response 200 sample_lines (Some (TransportError "ReadError"))))
             None in
  r = event_stream Json.loads (answered 200 (take 3 sample_lines)) None
  /\ outcome r = Ok tt
  /\ next_lines (trace r) = take 3 sample_lines.
Proof.
  refine (done_ends_the_reading Json.loads 200 (take 2 sample_lines)
            (Json.text "{'response':'B','done':true}")
            (<["response" := JStr "B"]> (<["done" := JBool true]> ∅))
            [Json.text "{'response':'C','done':false}"]
            (Some (TransportError "ReadError")) sample_pre_passes _ _ _).
  - vm_compute; reflexivity.
  - vm_compute; reflexivity.
  - vm_compute; reflexivity.
Defined.

(** A read error after the first two lines of the sample. *)
Lemma read_failure_skips_farewell_witness :
  let e := TransportError "ReadError" in
  let r := event_stream Json.loads
             (Accepted (Response 200 (take 2 sample_lines) (Some e))) None in
  let r0 := event_stream Json.loads (answered 200 (take 2 sample_lines)) None in
  outcome r = Raise e
  /\ outcome r0 = Ok tt
  /\ trace r0 = trace r ++ farewell
  /\ exists t, trace r = t ++ release.
Proof.
  intros e.
  apply (read_failure_skips_farewell Json.loads 200 (take 2 sample_lines) e
           sample_pre_passes).
Defined.

(** The sample of the specification, cut after its second line. *)
Lemma body_splits_between_lines_witness :
  let r := event_stream Json.loads (answered 200 sample_lines) None in
  let r1 := event_stream Json.loads (answered 200 (take 2 sample_lines)) None in
  let r2 := event_stream Json.loads (answered 200 (drop 2 sample_lines)) None in
  drop 2 (events r) = fragments (events r1) ++ drop 2 (events r2)
  /\ outcome r = outcome r2.
Proof.
  apply (body_splits_between_lines Json.loads 200 (take 2 sample_lines)
           (drop 2 sample_lines) None sample_pre_passes).
Defined.

(** Two lines that decode to objects, the second without ["response"]. *)
Lemma chunks_relayed_in_order_witness :
  let ls := [Json.text "{'response':'A','done':false}"; Json.text "{'id':7}"] in
  let r := event_stream Json.loads (answered 200 ls) None in
  events r = script 200 [JStr "A"; JStr ""] /\ outcome r = Ok tt.
Proof.
  refine (chunks_relayed_in_order Json.loads 200 _
            [<["response" := JStr "A"]> (<["done" := JBool false]> ∅);
             <["id" := JInt 7]> ∅] _).
  constructor; [|constructor; [|constructor]];
    repeat split; vm_compute; reflexivity.
Defined.

(* ------------------------------------------------------------------ *)
(** ** Pacing *)

(** A session that runs to its end with a consumer that stays sleeps for
    one second after the start event, one after the [status] event and one
    before the [close] event, and for 0.3 s before each relayed chunk:
    three seconds, and 300 ms for each [message] event that carries a
    chunk. Blank and undecodable lines cost no time. *)
Theorem session_sleeps (json_loads : string -> result json) resp :
  let r := event_stream json_loads (Accepted resp) None in
  outcome r = Ok tt ->
  slept (trace r) = 3000 + 300 * Z.of_nat (length (fragments (events r))).
Proof.
  intros r Ho.
  destruct (session_summary json_loads resp) as (He & Ho' & _).
  fold r in He, Ho'. rewrite Ho in Ho'. rewrite He, <- Ho', fragments_framed.
  rewrite length_fmap. subst r. rewrite event_stream_accepted in Ho |- *.
  destruct (outcome (aiter_lines _ _ _ _)) as [[]|e]; [|discriminate Ho].
  cbn [trace]. rewrite !slept_app, aiter_lines_slept.
  cbn [preamble release farewell slept foldr]. lia.
Qed.

(** The sample of the specification: two chunks, 3.6 s. *)
Lemma session_sleeps_witness :
  slept (trace (event_stream Json.loads (answered 200 sample_lines) None)) = 3600.
Proof.
  refine (eq_trans (session_sleeps Json.loads (Response 200 sample_lines None) _) _).
  - vm_compute; reflexivity.
  - vm_compute; reflexivity.
Defined.

(* ------------------------------------------------------------------ *)
(** ** The session, whatever the consumer does *)

Lemma event_stream_blocks (json_loads : string -> result json) u :
  event_stream json_loads u
  = (async_with (act ClientOpen) (act ClientClose) (fun _ =>
       async_with (client_stream ai_request u) (act ResponseClose)
                  (relay_body json_loads))
     ≫= fun _ => say_farewell).
Proof. reflexivity. Qed.

(** The three ways a session can go: the consumer is gone before the
    request is answered, the request is refused, or it is answered and the
    response is handed to [relay_body]. *)
Lemma event_stream_cases (json_loads : string -> result json) u p :
  (p = Some O
   /\ event_stream json_loads u p
      = Run [ClientOpen; Connect ai_request; ClientClose] (Some O)
            (Raise CancelledError))
  \/ (exists q e,
        resumes p q /\ u = Refused e
        /\ event_stream json_loads u p
           = Run [ClientOpen; Connect ai_request; ClientClose] q (Raise e))
  \/ (exists q resp,
        resumes p q /\ u = Accepted resp
        /\ event_stream json_loads u p
           = let b := relay_body json_loads resp q in
             match outcome b with
             | Ok _ =>
                 prepend ([ClientOpen; Connect ai_request] ++ trace b ++ release)
                         (say_farewell (rest b))
             | Raise e =>
                 Run ([ClientOpen; Connect ai_request] ++ trace b ++ release)
                     (rest b) (Raise e)
             end).
Proof.
  destruct (await_cases p) as [[q Hq]| ->]; [|left; by destruct u].
  right. destruct u as [e|resp]; [left|right].
  - exists q, e. repeat split; [done|].
    destruct p as [[|n]|]; [discriminate Hq|..]; injection Hq as <-; reflexivity.
  - exists q, resp. repeat split; [done|].
    rewrite event_stream_blocks, bind_run, async_with_acts.
    rewrite (async_with_entered _ _ _ _ _ _ _ (client_stream_accepted _ _ _ _ Hq)).
    unfold prepend, followed_by; cbn [trace rest outcome].
    destruct (outcome (relay_body json_loads resp q)) as [[]|e];
      cbn [app release]; by rewrite <- !app_assoc.
Qed.

Lemma say_farewell_prefix q : trace (say_farewell q) `prefix_of` farewell.
Proof. destruct q as [[|[|[|n]]]|]; by eexists. Qed.

Lemma relay_body_inside (json_loads : string -> result json) resp :
  emits (fun a => lifecycle a = false) (relay_body json_loads resp).
Proof.
  unfold relay_body.
  apply emits_bind; [by apply emits_yield|intros _].
  apply emits_bind; [by apply emits_sleep|intros _].
  apply emits_bind; [by apply emits_act|intros _].
  apply emits_bind; [by apply emits_yield|intros _].
  apply emits_bind; [by apply emits_sleep|intros _].
  apply emits_aiter_lines.
  by intros a [[l ->]|[[m ->]|[->|[chunk ->]]]].
Qed.

(** The client and the response are handled the same way on every path.
    Whatever the upstream does and whenever the consumer leaves, a session
    opens the client, sends the one request, and closes the client, once
    each and in that order. Between the request and the closing of the
    client it handles no client or response: it only takes lines, prints,
    sleeps and yields, and then releases the response, exactly when it had
    acquired one. After the client is closed, it can only do the beginning
    of: yield the closing message, sleep, yield [close]. *)
Theorem session_lifecycle (json_loads : string -> result json) u p :
  exists inside after,
    trace (event_stream json_loads u p)
    = [ClientOpen; Connect ai_request] ++ inside
      ++ (if acquired u p then [ResponseClose] else [])
      ++ ClientClose :: after
    /\ Forall (fun a => lifecycle a = false) inside
    /\ after `prefix_of` farewell.
Proof.
  destruct (event_stream_cases json_loads u p)
    as [[-> ->]|[(q & e & Hq & -> & ->)|(q & resp & Hq & -> & ->)]].
  - exists [], []. split; [by destruct u|split; [constructor|by eexists]].
  - exists [], []. split; [|split; [constructor|by eexists]].
    by destruct p as [[|n]|].
  - assert (acquired (Accepted resp) p = true) as ->
      by (destruct p as [[|n]|]; [discriminate Hq|done..]).
    pose proof (relay_body_inside json_loads resp q) as Hin.
    cbn zeta. destruct (outcome (relay_body json_loads resp q)) as [[]|e].
    + exists (trace (relay_body json_loads resp q)),
             (trace (say_farewell (rest (relay_body json_loads resp q)))).
      split; [|split; [done|apply say_farewell_prefix]].
      cbn [prepend trace release]. by rewrite <- !app_assoc.
    + exists (trace (relay_body json_loads resp q)), [].
      split; [|split; [done|by eexists]].
      cbn [trace release]. by rewrite <- ?app_assoc.
Qed.

(* ------------------------------------------------------------------ *)
(** ** The lines are taken in order *)

Lemma next_lines_none t :
  Forall (fun a => forall l, a <> NextLine l) t -> next_lines t = [].
Proof.
  induction 1 as [|a t Ha _ IH]; [done|].
  destruct a; try exact IH. by destruct (Ha line).
Qed.

Lemma next_lines_quiet {A} (m : gen A) p :
  emits (fun a => forall l, a <> NextLine l) m -> next_lines (trace (m p)) = [].
Proof. intros H. apply next_lines_none, H. Qed.

Lemma takes_from_quiet {A} ls (m : gen A) :
  emits (fun a => forall l, a <> NextLine l) m -> takes_from ls m.
Proof. intros H p. rewrite (next_lines_quiet _ _ H). apply prefix_nil. Qed.

Lemma takes_from_bind {A B} ls (m : gen A) (f : A -> gen B) :
  emits (fun a => forall l, a <> NextLine l) m ->
  (forall a, takes_from ls (f a)) ->
  takes_from ls (m ≫= f).
Proof.
  intros Hm Hf p. rewrite bind_run.
  destruct (outcome (m p)) as [a|e].
  - unfold prepend; cbn [trace]. rewrite next_lines_app, (next_lines_quiet _ _ Hm).
    apply Hf.
  - cbn [trace]. rewrite (next_lines_quiet _ _ Hm). apply prefix_nil.
Qed.

Section InOrder.

Variable json_loads : string -> result json.

Lemma relay_line_quiet line :
  emits (fun a => forall l, a <> NextLine l) (relay_line json_loads line).
Proof.
  apply emits_try_except.
  - apply emits_bind; [apply emits_lift|intros data].
    apply emits_bind; [apply emits_lift|intros chunk].
    apply emits_bind; [by apply emits_act|intros _].
    apply emits_bind; [by apply emits_sleep|intros _].
    apply emits_bind; [by apply emits_yield|intros _].
    apply emits_bind; [apply emits_lift|intros done].
    destruct (truthy done); apply emits_ret.
  - apply emits_bind; [by apply emits_act|intros _; apply emits_ret].
Qed.

Lemma aiter_lines_takes failure ls :
  takes_from ls (aiter_lines json_loads failure ls).
Proof.
  induction ls as [|line ls IH]; intros p.
  - apply (takes_from_bind [] await); [apply emits_await|intros _].
    apply takes_from_quiet. destruct failure; [apply emits_raise|apply emits_ret].
  - destruct (await_cases p) as [[q Hq]| ->]; [|exact (prefix_nil _)].
    rewrite (aiter_lines_step _ _ _ _ _ _ Hq).
    unfold prepend; cbn [trace app]. apply (prefix_cons line).
    destruct (blank line); [apply IH|].
    apply takes_from_bind; [apply relay_line_quiet|].
    intros [|]; [apply IH|apply takes_from_quiet, emits_ret].
Qed.

Lemma relay_body_takes resp :
  takes_from (body_lines resp) (relay_body json_loads resp).
Proof.
  unfold relay_body.
  apply takes_from_bind; [by apply emits_yield|intros _].
  apply takes_from_bind; [by apply emits_sleep|intros _].
  apply takes_from_bind; [by apply emits_act|intros _].
  apply takes_from_bind; [by apply emits_yield|intros _].
  apply takes_from_bind; [by apply emits_sleep|intros _].
  apply aiter_lines_takes.
Qed.

Lemma say_farewell_quiet :
  emits (fun a => forall l, a <> NextLine l) say_farewell.
Proof.
  unfold say_farewell.
  apply emits_bind; [by apply emits_yield|intros _].
  apply emits_bind; [by apply emits_sleep|intros _].
  by apply emits_yield.
Qed.

(** Whenever the consumer leaves and however the body ends, the lines a
    session has taken from the iterator are the first lines of the body,
    each taken once and in their order: no line is skipped, read twice or
    read out of turn. *)
Theorem lines_taken_in_order resp p :
  next_lines (trace (event_stream json_loads (Accepted resp) p))
  `prefix_of` body_lines resp.
Proof.
  destruct (event_stream_cases json_loads (Accepted resp) p)
    as [[-> ->]|[(q & e & Hq & Hu & ->)|(q & resp' & Hq & Hu & ->)]].
  - apply prefix_nil.
  - apply prefix_nil.
  - injection Hu as <-. cbn zeta.
    pose proof (relay_body_takes resp q) as Hb.
    destruct (outcome (relay_body json_loads resp q)) as [[]|e];
      unfold prepend; cbn [trace];
      rewrite !next_lines_app, ?(next_lines_quiet _ _ say_farewell_quiet);
      cbn [next_lines omap app release]; by rewrite ?app_nil_r.
Qed.

End InOrder.

(* ------------------------------------------------------------------ *)
(** ** Two runs on the same response *)

Lemma session_sends_once (json_loads : string -> result json) u p :
  exists t,
    trace (event_stream json_loads u p) = ClientOpen :: Connect ai_request :: t
    /\ Forall (fun a => forall req, a <> Connect req) t.
Proof.
  destruct (event_stream_cases json_loads u p)
    as [[-> ->]|[(q & e & Hq & -> & ->)|(q & resp & Hq & -> & ->)]].
  - exists [ClientClose]. split; [done|]. by repeat constructor.
  - exists [ClientClose]. split; [done|]. by repeat constructor.
  - assert (Forall (fun a => forall req, a <> Connect req)
                   (trace (relay_body json_loads resp q))) as Hin.
    { eapply Forall_impl; [apply relay_body_inside|].
      intros a Ha req ->. discriminate Ha. }
    assert (Forall (fun a => forall req, a <> Connect req) release) as Hrel
      by (by repeat constructor).
    cbn zeta. destruct (outcome (relay_body json_loads resp q)) as [[]|e].
    + exists (trace (relay_body json_loads resp q) ++ release
              ++ trace (say_farewell (rest (relay_body json_loads resp q)))).
      split; [cbn [prepend trace app]; by rewrite <- !app_assoc|].
      rewrite !Forall_app. split; [done|]. split; [done|].
      destruct (say_farewell_prefix (rest (relay_body json_loads resp q))) as [k Hk].
      assert (Forall (fun a => forall req, a <> Connect req) farewell) as Hf
        by (by repeat constructor).
      rewrite Hk, Forall_app in Hf. by destruct Hf.
    + exists (trace (relay_body json_loads resp q) ++ release).
      split; [cbn [trace app]; by rewrite <- ?app_assoc|].
      rewrite Forall_app. by split.
Qed.

Section Alike.

Variable json_loads : string -> result json.

(** Whether the closing message and [close] are yielded depends on
    whether the body ends well, not on the error it ends with. *)
Lemma ending_alike f1 f2 ls :
  (f1 = None <-> f2 = None) ->
  match ending json_loads f1 ls with
  | Ok _ => [closing_event; close_event]
  | Raise _ => []
  end
  = match ending json_loads f2 ls with
    | Ok _ => [closing_event; close_event]
    | Raise _ => []
    end.
Proof.
  intros H. induction ls as [|line ls IH]; cbn [ending].
  - destruct f1 as [e1|], f2 as [e2|]; try done.
    + destruct H as [_ H]. by specialize (H eq_refl).
    + destruct H as [H _]. by specialize (H eq_refl).
  - destruct (verdict_of json_loads line) as [| |chunk [|]|e]; done.
Qed.

(** C9. Two runs of a session that see the same status code and the same
    body lines, however each body ends and whenever each consumer leaves,
    yield event sequences of which one is the beginning of the other. The
    two sequences are the same, kinds and data, in order, when both
    generators return, and they are then the start event, the [status]
    event, one [message] event for each chunk the loop relays, the closing
    message and [close]; they are the same too when both consumers stay
    and both bodies end well or both end with an error. Every run,
    whatever the upstream answers and whenever the consumer leaves, sends
    one request and no other, right after the client is opened: a [POST]
    to the URL of line 25 with the model ["llama3.2"], the prompt and
    [stream: True] of lines 26-30, which depend on nothing that the client
    sends. *)
Theorem relay_deterministic code ls f1 f2 p1 p2 :
  let r1 := event_stream json_loads (Accepted (Response code ls f1)) p1 in
  let r2 := event_stream json_loads (Accepted (Response code ls f2)) p2 in
  (events r1 `prefix_of` events r2 \/ events r2 `prefix_of` events r1)
  /\ (outcome r1 = Ok tt -> outcome r2 = Ok tt ->
      events r1 = events r2
      /\ events r1 = [start_event; status_event code]
                     ++ (Event Message <$> relayed json_loads ls)
                     ++ [closing_event; close_event])
  /\ (p1 = None -> p2 = None -> (f1 = None <-> f2 = None) -> events r1 = events r2)
  /\ (forall u p, exists t,
        trace (event_stream json_loads u p)
        = ClientOpen
          :: Connect (Request "POST" "http://localhost:11434/api/generate"
                        (JObj (<["model" := JStr "llama3.2"]>
                               (<["prompt" := JStr "What is the capital of France?"]>
                                (<["stream" := JBool true]> ∅)))))
          :: t
        /\ Forall (fun a => forall req, a <> Connect req) t).
Proof.
  intros r1 r2.
  destruct (session_events_prefix json_loads code ls f1 p1) as [H1 H1'].
  destruct (session_events_prefix json_loads code ls f2 p2) as [H2 H2'].
  fold r1 in H1, H1'. fold r2 in H2, H2'.
  split; [by eapply prefix_weak_total|].
  split; [intros Ho1 Ho2; by rewrite H1', H2'|].
  split; [|intros u p; apply session_sends_once].
  intros -> -> Hf. subst r1 r2.
  destruct (session_summary json_loads (Response code ls f1)) as (-> & _ & _).
  destruct (session_summary json_loads (Response code ls f2)) as (-> & _ & _).
  cbn [body_lines body_failure status_code].
  by rewrite (ending_alike f1 f2 ls Hf).
Qed.

End Alike.

(** C9 on the sample of the specification: a body that would have ended
    with a read error after the four lines, against one that ends well. *)
Lemma relay_deterministic_witness :
  events (event_stream Json.loads
            (Accepted (Response 200 sample_lines (Some (TransportError "ReadError"))))
            None)
  = events (event_stream Json.loads (answered 200 sample_lines) None).
Proof.
  refine (proj1 (proj1 (proj2 (relay_deterministic Json.loads 200 sample_lines
                                 (Some (TransportError "ReadError")) None None None))
                       _ _)).
  - vm_compute; reflexivity.
  - vm_compute; reflexivity.
Defined.

(** C9 fails for runs that see the status code 200 and the one line
    [{"response":"A"}]. The first has a consumer that stays and a body
    that ends well; the second a consumer that stays and a body that ends
    with a read error after the line; the third a body that ends well and
    a consumer that leaves when the chunk is delivered. All three take the
    line and relay its chunk; the first goes on to the closing message and
    [close], the other two yield nothing more. *)
Lemma read_error_changes_events :
  let lines := [Json.text "{'response':'A'}"] in
  let r1 := event_stream Json.loads (answered 200 lines) None in
  let r2 := event_stream Json.loads
              (Accepted (Response 200 lines (Some (TransportError "ReadError"))))
              None in
  let r3 := event_stream Json.loads (answered 200 lines) (Some 7%nat) in
  next_lines (trace r1) = lines
  /\ next_lines (trace r2) = lines
  /\ next_lines (trace r3) = lines
  /\ events r1 = [start_event; status_event 200; Event Message (JStr "A");
                  closing_event; close_event]
  /\ events r2 = [start_event; status_event 200; Event Message (JStr "A")]
  /\ events r3 = [start_event; status_event 200; Event Message (JStr "A")]
  /\ outcome r1 = Ok tt
  /\ outcome r2 = Raise (TransportError "ReadError")
  /\ outcome r3 = Raise CancelledError
  /\ events r1 <> events r2
  /\ events r1 <> events r3.
Proof.
  intros lines r1 r2 r3. repeat apply conj; try (vm_compute; reflexivity).
  - vm_compute. discriminate.
  - vm_compute. discriminate.
Qed.

(* ------------------------------------------------------------------ *)
(** ** A consumer that leaves *)

Lemma unwinds_lift {A} (x : result A) : unwinds (lift x).
Proof. split; [done|]. intros p. by left. Qed.

Lemma unwinds_ret {A} (a : A) : unwinds (mret a : gen A).
Proof. apply (unwinds_lift (Ok a)). Qed.

Lemma unwinds_raise {A} e : unwinds (raise e : gen A).
Proof. apply (unwinds_lift (Raise e)). Qed.

Lemma unwinds_act a : unwinds (act a).
Proof. split; [done|]. intros p. by left. Qed.

Lemma unwinds_await : unwinds await.
Proof.
  split; [done|]. intros [[|n]|]; [right|left..]; try done.
  split; [done|]. exists [], []. by repeat split.
Qed.

Lemma unwinds_bind {A B} (m : gen A) (f : A -> gen B) :
  unwinds m -> (forall a, unwinds (f a)) -> unwinds (m ≫= f).
Proof.
  intros [Hm Hcut] Hf. split.
  - rewrite bind_run. destruct (outcome (m None)) as [a|e]; [|done].
    cbn. rewrite Hm. apply Hf.
  - intros p. rewrite !bind_run, Hm. unfold unwound.
    destruct (Hcut p) as [[Ht Ho]|(Ho & t & rel & Ht & Hpre & Hrel)].
    + rewrite Ho. destruct (outcome (m None)) as [a|e]; [|by left].
      destruct (Hf a) as [_ Hfa].
      unfold prepend; cbn [trace outcome]. rewrite Ht.
      destruct (Hfa (rest (m p))) as [[Ht' Ho']|(Ho' & t' & rel' & Ht' & Hpre' & Hrel')].
      * left. by rewrite Ht', Ho'.
      * right. split; [done|]. exists (trace (m None) ++ t'), rel'.
        rewrite Ht', app_assoc. split; [done|]. split; [by apply prefix_app|done].
    + rewrite Ho. right. cbn [trace outcome]. split; [done|].
      exists t, rel. split; [done|]. split; [|done].
      etrans; [exact Hpre|].
      destruct (outcome (m None)); [|done].
      unfold prepend; cbn [trace]. by apply prefix_app_r.
Qed.

Lemma unwinds_try_except {A} (body handler : gen A) catches :
  catches CancelledError = false ->
  unwinds body -> unwinds handler -> unwinds (try_except body catches handler).
Proof.
  intros Hc [Hb Hcut] [Hh Hcut']. split.
  - unfold try_except. destruct (outcome (body None)) as [a|e]; [done|].
    destruct (catches e); [|done]. cbn. by rewrite Hb.
  - intros p. unfold try_except, unwound. rewrite Hb.
    destruct (Hcut p) as [[Ht Ho]|(Ho & t & rel & Ht & Hpre & Hrel)].
    + rewrite Ho. destruct (outcome (body None)) as [a|e] eqn:Hi; [left; by rewrite Ho|].
      destruct (catches e); [|left; by rewrite Ho].
      cbn [trace outcome]. rewrite Ht.
      destruct (Hcut' (rest (body p))) as [[Ht' Ho']|(Ho' & t' & rel' & Ht' & Hpre' & Hrel')].
      * left. by rewrite Ht', Ho'.
      * right. split; [done|]. exists (trace (body None) ++ t'), rel'.
        rewrite Ht', app_assoc. split; [done|]. split; [by apply prefix_app|done].
    + rewrite Ho, Hc. right. split; [done|].
      exists t, rel. split; [done|]. split; [|done].
      etrans; [exact Hpre|].
      destruct (outcome (body None)) as [a|e]; [done|].
      destruct (catches e); [|done].
      cbn [trace]. by apply prefix_app_r.
Qed.

Lemma unwinds_async_with {A B} (enter : gen A) b (body : A -> gen B) :
  releasing b ->
  unwinds enter -> (forall x, unwinds (body x)) ->
  unwinds (async_with enter (act b) body).
Proof.
  intros Hb [He Hcut] Hbody. split.
  - unfold async_with. destruct (outcome (enter None)) as [x|e]; [|done].
    cbn. rewrite He. apply Hbody.
  - intros p. unfold async_with, unwound. rewrite He.
    destruct (Hcut p) as [[Ht Ho]|(Ho & t & rel & Ht & Hpre & Hrel)].
    + rewrite Ho. destruct (outcome (enter None)) as [x|e]; [|by left].
      cbn [trace outcome rest act]. rewrite Ht.
      destruct (Hbody x) as [_ Hx].
      destruct (Hx (rest (enter p))) as [[Ht' Ho']|(Ho' & t' & rel' & Ht' & Hpre' & Hrel')].
      * left. by rewrite Ht', Ho'.
      * right. rewrite Ho'. split; [done|].
        exists (trace (enter None) ++ t'), (rel' ++ [b]).
        rewrite Ht'. split; [by rewrite <- !app_assoc|].
        split.
        -- apply prefix_app. etrans; [exact Hpre'|]. by apply prefix_app_r.
        -- apply Forall_app. split; [done|]. by constructor.
    + rewrite Ho. right. split; [done|].
      exists t, rel. split; [done|]. split; [|done].
      etrans; [exact Hpre|].
      destruct (outcome (enter None)) as [x|e]; [|done].
      cbn [trace]. by apply prefix_app_r.
Qed.

Lemma unwinds_yield e : unwinds (yield_ e).
Proof. apply unwinds_bind; [apply unwinds_act|intros _; apply unwinds_await]. Qed.

Lemma unwinds_sleep ms : unwinds (sleep ms).
Proof. apply unwinds_bind; [apply unwinds_act|intros _; apply unwinds_await]. Qed.

Lemma unwinds_client_stream r u : unwinds (client_stream r u).
Proof.
  apply unwinds_bind; [apply unwinds_act|intros _].
  apply unwinds_bind; [apply unwinds_await|intros _].
  destruct u; [apply unwinds_raise|apply unwinds_ret].
Qed.

Section Leaving.

Variable json_loads : string -> result json.

Lemma unwinds_relay_line line : unwinds (relay_line json_loads line).
Proof.
  apply unwinds_try_except; [done| |].
  - apply unwinds_bind; [apply unwinds_lift|intros data].
    apply unwinds_bind; [apply unwinds_lift|intros chunk].
    apply unwinds_bind; [apply unwinds_act|intros _].
    apply unwinds_bind; [apply unwinds_sleep|intros _].
    apply unwinds_bind; [apply unwinds_yield|intros _].
    apply unwinds_bind; [apply unwinds_lift|intros done].
    destruct (truthy done); apply unwinds_ret.
  - apply unwinds_bind; [apply unwinds_act|intros _; apply unwinds_ret].
Qed.

Lemma unwinds_aiter_lines failure ls : unwinds (aiter_lines json_loads failure ls).
Proof.
  induction ls as [|line ls IH]; cbn [aiter_lines].
  - apply unwinds_bind; [apply unwinds_await|intros _].
    destruct failure; [apply unwinds_raise|apply unwinds_ret].
  - apply unwinds_bind; [apply unwinds_await|intros _].
    apply unwinds_bind; [apply unwinds_act|intros _].
    destruct (blank line); [exact IH|].
    apply unwinds_bind; [apply unwinds_relay_line|intros [|]];
      [exact IH|apply unwinds_ret].
Qed.

Lemma unwinds_event_stream u : unwinds (event_stream json_loads u).
Proof.
  apply unwinds_bind.
  - apply unwinds_async_with; [by right|apply unwinds_act|intros _].
    apply unwinds_async_with; [by left|apply unwinds_client_stream|intros resp].
    apply unwinds_bind; [apply unwinds_yield|intros _].
    apply unwinds_bind; [apply unwinds_sleep|intros _].
    apply unwinds_bind; [apply unwinds_act|intros _].
    apply unwinds_bind; [apply unwinds_yield|intros _].
    apply unwinds_bind; [apply unwinds_sleep|intros _].
    apply unwinds_aiter_lines.
  - intros _.
    apply unwinds_bind; [apply unwinds_yield|intros _].
    apply unwinds_bind; [apply unwinds_sleep|intros _].
    apply unwinds_yield.
Qed.

(** A consumer that leaves stops the session. Whatever the upstream does
    and at whichever point the cancellation arrives, the run is the run
    with a consumer that stays up to that point, and then nothing but the
    exits of the [async with] blocks it is in: it takes no further line,
    prints nothing, yields no event and does not sleep, and the
    cancellation leaves the generator. Nothing in the generator catches
    the cancellation or runs on the way out besides the two exits. A run
    that is not cancelled does the same actions as with a consumer that
    stays and ends the same way. *)
Theorem disconnect_stops_session u p :
  let r := event_stream json_loads u p in
  let ideal := event_stream json_loads u None in
  (trace r = trace ideal /\ outcome r = outcome ideal)
  \/ (outcome r = Raise CancelledError
      /\ exists t rel,
           trace r = t ++ rel
           /\ t `prefix_of` trace ideal
           /\ Forall (fun a => a = ResponseClose \/ a = ClientClose) rel).
Proof. intros r ideal. destruct (unwinds_event_stream u) as [_ H]. exact (H p). Qed.

(** The events of a session are the beginning of one script. Whenever the
    consumer leaves and however the body ends, what has been yielded is an
    initial part of: the start event, the [status] event, one [message]
    event for each chunk the loop relays, in the order of the lines, the
    closing message, the [close] event. When the generator returns, it is
    the whole of it. *)
Theorem events_follow_script code ls failure p :
  let r := event_stream json_loads (Accepted (Response code ls failure)) p in
  events r `prefix_of` script code (relayed json_loads ls)
  /\ (outcome r = Ok tt -> events r = script code (relayed json_loads ls)).
Proof. exact (session_events_prefix json_loads code ls failure p). Qed.

(** Only [JSONDecodeError] is caught. When [json.loads] raises anything
    else on a line that is not blank, reached after lines the loop gets
    past, the exception leaves the generator: the message of the handler
    is not printed for that line, nothing is done after the line is taken
    but to leave the two [async with] blocks, and no [close] event is
    yielded. *)
Theorem decoder_error_escapes code failure pre line e post :
  Forall (passes json_loads) pre ->
  blank line = false ->
  json_loads line = Raise e ->
  is_JSONDecodeError e = false ->
  let r := event_stream json_loads
             (Accepted (Response code (pre ++ line :: post) failure)) None in
  outcome r = Raise e
  /\ (exists t, trace r = t ++ NextLine line :: release)
  /\ Forall (fun ev => ev_kind ev <> Close) (events r).
Proof.
  intros Hpre Hb H He r.
  assert (verdict_of json_loads line = Failed e) as Hv.
  { unfold verdict_of. by rewrite Hb, H, He. }
  destruct (aiter_lines_crash json_loads failure pre line post e Hpre Hv) as [t Ht].
  assert (r = Run (preamble code ++ (t ++ [NextLine line]) ++ release) None
                  (Raise e)) as Hr.
  { subst r. rewrite event_stream_accepted.
    cbn [body_lines body_failure status_code]. by rewrite Ht. }
  split; [by rewrite Hr|]. split.
  - exists (preamble code ++ t). rewrite Hr; cbn [trace].
    by rewrite <- !app_assoc.
  - destruct (session_summary json_loads (Response code (pre ++ line :: post) failure))
      as (Hev & Ho & _).
    fold r in Hev, Ho. rewrite Hev, <- Ho, Hr; cbn [outcome].
    rewrite app_nil_r. repeat constructor; try done.
    apply Forall_fmap, Forall_true. done.
Qed.

End Leaving.

(** A decoder that gives up on a line with a [RecursionError], as
    [json.loads] does on a value nested too deep: the session ends with
    that error after the first chunk. *)
Lemma decoder_error_escapes_witness :
  let deep := fun s : string =>
                if String.eqb s "[[[[" then Raise RecursionError
                else Json.loads s in
  let r := event_stream deep
             (answered 200 [(Json.text "{'response':'A'}"); "[[[["; (Json.text "{'done':true}")]%string)
             None in
  outcome r = Raise RecursionError
  /\ (exists t, trace r = t ++ NextLine "[[[[" :: release)
  /\ Forall (fun ev => ev_kind ev <> Close) (events r).
Proof.
  intros deep.
  refine (decoder_error_escapes deep 200 None
            [(Json.text "{'response':'A'}")] "[[[[" RecursionError
            [(Json.text "{'done':true}")] _ _ _ _).
  - subst deep. constructor; [|constructor].
    right; right. eexists. split; vm_compute; reflexivity.
  - vm_compute; reflexivity.
  - subst deep. vm_compute; reflexivity.
  - reflexivity.
Defined.
